(** * A verification model of the quic-go demo server and its congestion
      and ack-handler factories.

    The development follows the Go sources:
    - the demo server ([generatePRData], [setupHandler], [ListenAndServe],
      [main]),
    - [congestion.NewCongestionHandler] with the control-type constants,
    - [ackhandler.NewAckHandler].

    Machine integers are [Z] with the wrap-around written out, bytes are
    [Z] in [0, 256), Go maps are [gmap], slices written by index use the
    list insert of stdpp. *)

From Stdlib Require Import ZArith Lia Ascii String.
From stdpp Require Import gmap strings list fin_maps.

Local Open Scope string_scope.
Local Open Scope Z_scope.

(** ** Machine arithmetic *)

Module Mach.

Definition wrap64 (x : Z) : Z := x mod 2 ^ 64.
Definition wrap32 (x : Z) : Z := x mod 2 ^ 32.

(** The Go conversion [byte(x)] of an unsigned integer: truncation to the
    low eight bits. *)
Definition byte_of (x : Z) : Z := Z.land x 255.

End Mach.

(** ** The synthetic payload generator, [generatePRData] *)

Module PRData.
Import Mach.

(** One turn of the loop body's first statement:
    [seed = seed * 48271 % 2147483647] on [uint64]. *)
Definition next_seed (seed : Z) : Z := wrap64 (seed * 48271) mod 2147483647.

(** The loop [for i := 0; i < l; i++ { seed = ...; res[i] = byte(seed) }],
    with [n] the number of turns still to run and [i] the loop index. *)
Fixpoint generatePRData_loop (n : nat) (i : nat) (seed : Z) (res : list Z) : list Z :=
  match n with
  | O => res
  | S n' =>
      let seed' := next_seed seed in
      generatePRData_loop n' (S i) seed' (<[i := byte_of seed']> res)
  end.

(** [generatePRData l]; [make([]byte, l)] panics on a negative length,
    which is [None] here. *)
Definition generatePRData (l : Z) : option (list Z) :=
  if l <? 0 then None
  else Some (generatePRData_loop (Z.to_nat l) 0 1 (replicate (Z.to_nat l) 0)).

(** The Lehmer generator as the specification words it: state [s_0 = 1],
    step [s_{i+1} = s_i * 48271 mod (2^31 - 1)] on 64-bit words. *)
Fixpoint lehmer (i : nat) : Z :=
  match i with
  | O => 1
  | S j => wrap64 (lehmer j * 48271) mod (2 ^ 31 - 1)
  end.

(** The same recurrence over the integers, without any word size. *)
Fixpoint lehmer_exact (i : nat) : Z :=
  match i with
  | O => 1
  | S j => (lehmer_exact j * 48271) mod (2 ^ 31 - 1)
  end.

Definition lehmer_bytes (l : nat) : list Z :=
  (λ i, lehmer (S i) mod 2 ^ 8) <$> seq 0 l.

End PRData.

(** ** [strconv.ParseInt] and [strings.ReplaceAll] as the handler calls them *)

Module Strconv.
Import Mach.

Definition code (c : ascii) : Z := Z.of_N (Ascii.N_of_ascii c).

Inductive NumError : Set := ErrSyntax | ErrRange.

(** [err != nil]. *)
Definition notNil {E} (err : option E) : bool :=
  match err with Some _ => true | None => false end.

Definition maxUint64 : Z := 2 ^ 64 - 1.

(** [lower(c)] of strconv: [c | ('x' - 'X')]. *)
Definition lower (k : Z) : Z := Z.lor k 32.

(** The digit loop of [ParseUint(s, base, 64)] for [2 <= base <= 36];
    the underscore case needs [base == 0] and is never taken. *)
Fixpoint ParseUint_loop (base : Z) (cs : list ascii) (n : Z) : Z * option NumError :=
  match cs with
  | [] => (n, None)
  | c :: cs' =>
      let k := code c in
      let d :=
        if (48 <=? k) && (k <=? 57) then Some (k - 48)
        else if (97 <=? lower k) && (lower k <=? 122) then Some (lower k - 97 + 10)
        else None in
      match d with
      | None => (0, Some ErrSyntax)
      | Some d =>
          if base <=? d then (0, Some ErrSyntax)
          else if maxUint64 / base + 1 <=? n then (maxUint64, Some ErrRange)
          else
            let n0 := wrap64 (n * base) in
            let n1 := wrap64 (n0 + d) in
            if (n1 <? n0) || (maxUint64 <? n1) then (maxUint64, Some ErrRange)
            else ParseUint_loop base cs' n1
      end
  end.

Definition ParseUint (s : string) (base : Z) : Z * option NumError :=
  match s with
  | EmptyString => (0, Some ErrSyntax)
  | _ => ParseUint_loop base (list_ascii_of_string s) 0
  end.

(** [ParseInt(s, base, 64)]: an optional sign, then [ParseUint], then the
    range check against [cutoff = 1 << 63]. *)
Definition ParseInt (s : string) (base : Z) : Z * option NumError :=
  match s with
  | EmptyString => (0, Some ErrSyntax)
  | String c0 rest =>
      let neg := Ascii.eqb c0 "-" in
      let s1 := if Ascii.eqb c0 "+" then rest else if neg then rest else s in
      let '(un, err) := ParseUint s1 base in
      match err with
      | Some ErrSyntax => (0, Some ErrSyntax)
      | _ =>
          let cutoff := 2 ^ 63 in
          if negb neg && (cutoff <=? un) then (cutoff - 1, Some ErrRange)
          else if neg && (cutoff <? un) then (- cutoff, Some ErrRange)
          else (if neg then - un else un, None)
      end
  end.

(** [strings.ReplaceAll(s, old, "")] for a one-byte [old]: every
    occurrence of the byte is dropped. *)
Fixpoint ReplaceAll_byte_empty (s : string) (old : ascii) : string :=
  match s with
  | EmptyString => EmptyString
  | String c s' =>
      if Ascii.eqb c old then ReplaceAll_byte_empty s' old
      else String c (ReplaceAll_byte_empty s' old)
  end.

End Strconv.

(** ** The part of [net/http] the handlers use *)

Module HTTP.

(** The response as the handler leaves it: the status passed to
    [WriteHeader] (or implied by the first [Write]) and the body written
    so far. *)
Record ResponseWriter : Type := mkResponse {
  wroteHeader : option Z;
  written : list Z
}.

Definition newResponse : ResponseWriter := mkResponse None [].

(** [w.WriteHeader(code)]; a second call is superfluous and ignored. *)
Definition WriteHeader (w : ResponseWriter) (code : Z) : ResponseWriter :=
  match wroteHeader w with
  | Some _ => w
  | None => mkResponse (Some code) (written w)
  end.

(** [w.Write(b)]: the first write implies [WriteHeader(200)]. *)
Definition Write (w : ResponseWriter) (b : list Z) : ResponseWriter :=
  let w' := WriteHeader w 200 in
  mkResponse (wroteHeader w') (written w' ++ b).

(** The status the client sees: 200 when the handler returned without
    calling [WriteHeader]. *)
Definition status (w : ResponseWriter) : Z := default 200 (wroteHeader w).

Definition bytes_of_string (s : string) : list Z :=
  (λ c, Z.of_N (Ascii.N_of_ascii c)) <$> list_ascii_of_string s.

Definition WriteString (w : ResponseWriter) (s : string) : ResponseWriter :=
  Write w (bytes_of_string s).

End HTTP.

(** ** [crypto/md5.Sum], after RFC 1321 *)

Module MD5.
Import Mach.

Definition K : list Z :=
  [ 0xd76aa478; 0xe8c7b756; 0x242070db; 0xc1bdceee; 0xf57c0faf; 0x4787c62a;
    0xa8304613; 0xfd469501; 0x698098d8; 0x8b44f7af; 0xffff5bb1; 0x895cd7be;
    0x6b901122; 0xfd987193; 0xa679438e; 0x49b40821; 0xf61e2562; 0xc040b340;
    0x265e5a51; 0xe9b6c7aa; 0xd62f105d; 0x02441453; 0xd8a1e681; 0xe7d3fbc8;
    0x21e1cde6; 0xc33707d6; 0xf4d50d87; 0x455a14ed; 0xa9e3e905; 0xfcefa3f8;
    0x676f02d9; 0x8d2a4c8a; 0xfffa3942; 0x8771f681; 0x6d9d6122; 0xfde5380c;
    0xa4beea44; 0x4bdecfa9; 0xf6bb4b60; 0xbebfbc70; 0x289b7ec6; 0xeaa127fa;
    0xd4ef3085; 0x04881d05; 0xd9d4d039; 0xe6db99e5; 0x1fa27cf8; 0xc4ac5665;
    0xf4292244; 0x432aff97; 0xab9423a7; 0xfc93a039; 0x655b59c3; 0x8f0ccc92;
    0xffeff47d; 0x85845dd1; 0x6fa87e4f; 0xfe2ce6e0; 0xa3014314; 0x4e0811a1;
    0xf7537e82; 0xbd3af235; 0x2ad7d2bb; 0xeb86d391 ].

Definition shifts : list Z :=
  [ 7; 12; 17; 22; 7; 12; 17; 22; 7; 12; 17; 22; 7; 12; 17; 22;
    5; 9; 14; 20; 5; 9; 14; 20; 5; 9; 14; 20; 5; 9; 14; 20;
    4; 11; 16; 23; 4; 11; 16; 23; 4; 11; 16; 23; 4; 11; 16; 23;
    6; 10; 15; 21; 6; 10; 15; 21; 6; 10; 15; 21; 6; 10; 15; 21 ].

Definition not32 (x : Z) : Z := Z.lxor x 0xffffffff.

Definition rotl32 (x s : Z) : Z :=
  wrap32 (Z.lor (Z.shiftl x s) (Z.shiftr x (32 - s))).

(** Little-endian word of four bytes, and back. *)
Definition word_of_bytes (bs : list Z) : Z :=
  foldr (λ b acc, b + 256 * acc) 0 bs.

Definition bytes_of_word (n : nat) (x : Z) : list Z :=
  (λ i, Z.land (Z.shiftr x (8 * Z.of_nat i)) 255) <$> seq 0 n.

Fixpoint chunks {A} (k : nat) (fuel : nat) (l : list A) : list (list A) :=
  match fuel with
  | O => []
  | S f => match l with
           | [] => []
           | _ => take k l :: chunks k f (drop k l)
           end
  end.

Definition pad (msg : list Z) : list Z :=
  let len := length msg in
  let zeros := ((55 + 64 - len mod 64) mod 64)%nat in
  msg ++ [128] ++ replicate zeros 0
      ++ bytes_of_word 8 (wrap64 (8 * Z.of_nat len)).

Definition round (M : list Z) (st : Z * Z * Z * Z) (i : nat) : Z * Z * Z * Z :=
  let '(a, b, c, d) := st in
  let '(f, g) :=
    if (i <? 16)%nat then (Z.lor (Z.land b c) (Z.land (not32 b) d), i)
    else if (i <? 32)%nat then
      (Z.lor (Z.land d b) (Z.land (not32 d) c), ((5 * i + 1) mod 16)%nat)
    else if (i <? 48)%nat then
      (Z.lxor (Z.lxor b c) d, ((3 * i + 5) mod 16)%nat)
    else (Z.lxor c (Z.lor b (not32 d)), ((7 * i) mod 16)%nat) in
  let x := wrap32 (a + f + K !!! i + M !!! g) in
  (d, wrap32 (b + rotl32 x (shifts !!! i)), b, c).

Definition block (st : Z * Z * Z * Z) (blk : list Z) : Z * Z * Z * Z :=
  let M := word_of_bytes <$> chunks 4 16 blk in
  let '(a0, b0, c0, d0) := st in
  let '(a, b, c, d) := foldl (round M) st (seq 0 64) in
  (wrap32 (a0 + a), wrap32 (b0 + b), wrap32 (c0 + c), wrap32 (d0 + d)).

(** [md5.Sum(data)]: the sixteen bytes of the digest. *)
Definition Sum (data : list Z) : list Z :=
  let p := pad data in
  let '(a, b, c, d) :=
    foldl block (0x67452301, 0xefcdab89, 0x98badcfe, 0x10325476)
          (chunks 64 (length p) p) in
  bytes_of_word 4 a ++ bytes_of_word 4 b ++ bytes_of_word 4 c ++ bytes_of_word 4 d.

(** [fmt.Fprintf(w, "%x", sum)] on a byte array: two lowercase
    hexadecimal digits per byte. *)
Definition hex_digit (n : Z) : Z := if n <? 10 then 48 + n else 97 + (n - 10).

Definition hex (bs : list Z) : list Z :=
  bs ≫= (λ b, [hex_digit (Z.shiftr b 4); hex_digit (Z.land b 15)]).

End MD5.

(** ** Requests and [mime/multipart] forms

    The form reader is the standard library's; it is modelled after its
    documentation: file parts are kept in memory while they fit the
    remaining [maxMemory] budget and go to temporary files otherwise. *)

Module Multipart.

(** A Go [error] value is its message. *)
Definition error : Set := string.

Record Part : Type := mkPart {
  FormName : string;
  FileName : string;   (* empty for a plain value *)
  Data : list Z
}.

Inductive Body : Type :=
  | BodyError (err : error)          (* not multipart, or malformed *)
  | BodyMultipart (parts : list Part).

Record Request : Type := mkRequest {
  Method : string;
  RequestURI : string;
  ReqBody : Body
}.

Inductive Stored : Type :=
  | InMemory (content : list Z)
  | OnDisk (content : list Z).

Record FileHeader : Type := mkFileHeader {
  Filename : string;
  stored : Stored
}.

Record Form : Type := mkForm {
  Value : gmap string (list (list Z));
  File : gmap string (list FileHeader)
}.

Definition ErrMessageTooLarge : error := "multipart: message too large".
Definition ErrMissingFile : error := "http: no such file".

(** One part of [readForm]; the state is the form with the two budgets
    [maxMemory] and [maxValueBytes]. *)
Definition readPart (st : Form * Z * Z) (p : Part) : error + Form * Z * Z :=
  let '(form, maxMemory, maxValueBytes) := st in
  let n := Z.of_nat (length (Data p)) in
  if String.eqb (FormName p) "" then inr st      (* a part without a name is skipped *)
  else if String.eqb (FileName p) "" then
    let maxValueBytes := maxValueBytes - n in
    if maxValueBytes <? 0 then inl ErrMessageTooLarge
    else inr (mkForm (<[FormName p := (default [] (Value form !! FormName p) ++ [Data p])%list]> (Value form))
                     (File form), maxMemory, maxValueBytes)
  else
    let old := default [] (File form !! FormName p) in
    if maxMemory <? n then
      inr (mkForm (Value form)
                  (<[FormName p := (old ++ [mkFileHeader (FileName p) (OnDisk (Data p))])%list]> (File form)),
           maxMemory, maxValueBytes)
    else
      inr (mkForm (Value form)
                  (<[FormName p := (old ++ [mkFileHeader (FileName p) (InMemory (Data p))])%list]> (File form)),
           maxMemory - n, maxValueBytes + n).

Fixpoint readParts (st : Form * Z * Z) (ps : list Part) : error + Form :=
  match ps with
  | [] => inr (st.1.1)
  | p :: ps' =>
      match readPart st p with
      | inl e => inl e
      | inr st' => readParts st' ps'
      end
  end.

(** [r.URL.RawQuery]: what follows the first question mark of the
    request URI. *)
Fixpoint RawQuery (uri : string) : string :=
  match uri with
  | EmptyString => ""
  | String c rest => if Ascii.eqb c "?" then rest else RawQuery rest
  end.

Definition is_hex (c : ascii) : bool :=
  let k := Z.of_N (Ascii.N_of_ascii c) in
  ((48 <=? k) && (k <=? 57)) || ((97 <=? k) && (k <=? 102)) || ((65 <=? k) && (k <=? 70)).

(** The error of [url.ParseQuery], as its documentation has it: a
    setting with a semicolon that is not encoded is invalid, and so is a
    percent sign that two hexadecimal digits do not follow. *)
Fixpoint query_error (q : string) : option error :=
  match q with
  | EmptyString => None
  | String c rest =>
      if Ascii.eqb c ";" then Some "invalid semicolon separator in query"
      else if Ascii.eqb c "%" then
        match rest with
        | String a (String b rest') =>
            if is_hex a && is_hex b then query_error rest'
            else Some "invalid URL escape"
        | _ => Some "invalid URL escape"
        end
      else query_error rest
  end.

(** [r.ParseForm()] on a request whose body is multipart: the body is
    left to [ParseMultipartForm], the error is that of the query. *)
Definition ParseForm (r : Request) : option error := query_error (RawQuery (RequestURI r)).

(** [r.ParseMultipartForm(maxMemory)]: an error of [ParseForm] is kept
    and returned at the end, after the form has been read. *)
Definition ParseMultipartForm (r : Request) (maxMemory : Z) : error + Form :=
  match ReqBody r with
  | BodyError e => inl e
  | BodyMultipart ps =>
      match readParts (mkForm ∅ ∅, maxMemory, maxMemory + 10 * 2 ^ 20) ps with
      | inl e => inl e
      | inr form =>
          match ParseForm r with
          | Some e => inl e
          | None => inr form
          end
      end
  end.




(** The two implementations of [multipart.File]: the in-memory section
    reader, which has a [Size] method, and [*os.File], which has none. *)
Inductive MFile : Type :=
  | sectionReadCloser (content : list Z)
  | osFile (content : list Z).

Definition Open (fh : FileHeader) : MFile :=
  match stored fh with
  | InMemory b => sectionReadCloser b
  | OnDisk b => osFile b
  end.

(** [r.FormFile(key)]: the first file of that key. *)
Definition FormFile (form : Form) (key : string) : error + MFile :=
  match File form !! key with
  | Some (fh :: _) => inr (Open fh)
  | _ => inl ErrMissingFile
  end.

(** The type assertion [file.(Size)] followed by [Size()]. *)
Definition asSize (f : MFile) : option Z :=
  match f with
  | sectionReadCloser b => Some (Z.of_nat (length b))
  | osFile _ => None
  end.

Definition contents (f : MFile) : list Z :=
  match f with sectionReadCloser b | osFile b => b end.

(** One [file.Read(b)] from offset zero: the buffer's prefix is
    overwritten with as much of the file as fits. *)
Definition Read (f : MFile) (b : list Z) : list Z :=
  (take (length b) (contents f) ++ drop (length (contents f)) b)%list.

End Multipart.

(** ** The two handler functions registered by [setupHandler] *)

Module Handler.
Import Mach Strconv PRData HTTP Multipart.

Inductive Event : Type :=
  | PrintRequest (r : Request)              (* fmt.Printf("%#v\n", r) *)
  | Infof_upload (err : error).             (* Infof("Error receiving upload: %#v", err) *)

(** What a handler call leaves behind: what it printed and the response,
    [None] when it panicked. *)
Definition Outcome : Type := list Event * option ResponseWriter.

Definition maxSize : Z := Z.shiftl 1 30.

(** The handler of ["/"] when no [www] directory is given. *)
Definition rootHandler (w : ResponseWriter) (r : Request) : Outcome :=
  let '(num, err) := ParseInt (ReplaceAll_byte_empty (RequestURI r) "/") 10 in
  if notNil err || (num <=? 0) || (maxSize <? num)
  then ([PrintRequest r], Some (WriteHeader w 400))
  else ([PrintRequest r], Write w <$> generatePRData num).

Definition nl : string := String (Ascii.ascii_of_nat 10) "".
Definition tab : string := String (Ascii.ascii_of_nat 9) "".
Definition dq : string := String (Ascii.ascii_of_nat 34) "".

Definition uploadForm : string :=
  "<html><body><form action=" ++ dq ++ "/demo/upload" ++ dq ++ " method=" ++ dq
    ++ "post" ++ dq ++ " enctype=" ++ dq ++ "multipart/form-data" ++ dq ++ ">" ++ nl
    ++ tab ++ tab ++ tab ++ tab ++ "<input type=" ++ dq ++ "file" ++ dq
    ++ " name=" ++ dq ++ "uploadfile" ++ dq ++ "><br>" ++ nl
    ++ tab ++ tab ++ tab ++ tab ++ "<input type=" ++ dq ++ "submit" ++ dq ++ ">" ++ nl
    ++ tab ++ tab ++ tab ++ "</form></body></html>".

(** The handler of ["/upload"]. *)
Definition uploadHandler (w : ResponseWriter) (r : Request) : Outcome :=
  let fallback (evs : list Event) : Outcome := (evs, Some (WriteString w uploadForm)) in
  if String.eqb (Method r) "POST" then
    match ParseMultipartForm r (Z.shiftl 1 30) with
    | inl err => fallback [Infof_upload err]
    | inr form =>
        match FormFile form "uploadfile" with
        | inl err => fallback [Infof_upload err]
        | inr file =>
            match asSize file with
            | Some size =>
                let b := replicate (Z.to_nat size) 0 in
                let b := Read file b in
                let md5 := MD5.Sum b in
                ([], Some (Write w (MD5.hex md5)))
            | None => fallback [Infof_upload "couldn't get uploaded file size"]
            end
        end
    end
  else fallback [].

(** What [setupHandler(www)] registers on the mux, pattern by pattern. *)
Inductive Registered : Type :=
  | FileServer (dir : string)
  | HandlerFunc (f : ResponseWriter → Request → Outcome).

Definition setupHandler (www : string) : list (string * Registered) :=
  [ ("/", if (0 <? String.length www)%nat then FileServer www else HandlerFunc rootHandler);
    ("/upload", HandlerFunc uploadHandler) ].

(** *** Vocabulary for the handlers' properties *)

(** The slash-free request URI, as [rootHandler] parses it. *)
Definition asked (r : Request) : Z * option NumError :=
  ParseInt (ReplaceAll_byte_empty (RequestURI r) "/") 10.

Definition lowercase_hex (c : Z) : Prop := 48 <= c <= 57 ∨ 97 <= c <= 102.

(** The page with the upload form, as a response. *)
Definition formPage : ResponseWriter :=
  mkResponse (Some 200) (bytes_of_string uploadForm).


End Handler.

(** ** Package [congestion]: control types and [NewCongestionHandler] *)

Module Congestion.

(** [type CongestionControlType int] with its [iota] constants. *)
Definition CongestionControlType : Set := Z.
Definition NewRenoControlType : CongestionControlType := 0.
Definition CubicControlType : CongestionControlType := 1.
Definition BbrControlType : CongestionControlType := 2.

(** [type HystartControlType int]. *)
Definition HystartControlType : Set := Z.
Definition HystartTypeStandard : HystartControlType := 0.
Definition HystartTypePlusPlus : HystartControlType := 1.
Definition HystartTypeNone : HystartControlType := 2.

Record CongestionOptions : Set := mkOptions {
  ControlType : CongestionControlType;
  Hystart : HystartControlType
}.

Definition hystartTypeToString (t : HystartControlType) : string :=
  if t =? HystartTypeStandard then "standard"
  else if t =? HystartTypePlusPlus then "++"
  else if t =? HystartTypeNone then "none"
  else "".

Definition congestionTypeToString (t : CongestionControlType) : string :=
  if t =? CubicControlType then "Cubic"
  else if t =? NewRenoControlType then "NewReno"
  else if t =? BbrControlType then "Bbr"
  else "".

(** A call of [utils.DefaultLogger] at a level, with the formatted message. *)
Inductive LogCall : Set :=
  | Infof (msg : string)
  | Errorf (msg : string).

Inductive Clock : Set := DefaultClock.

Section Factory.
(** The types of the collaborators, and the constructor of the
    cubic-family sender, [NewCubicSender(clock, rttStats,
    initialMaxDatagramSize, reno, hystartType, tracer)], which lives in
    another file of the package. *)
Context {RTTStats ConnectionTracer SendAlgorithmWithDebugInfos : Type}.
Variable NewCubicSender :
  Clock → RTTStats → Z → bool → HystartControlType → ConnectionTracer →
  SendAlgorithmWithDebugInfos.

Definition NewCongestionHandler
    (rttStats : RTTStats) (initialMaxDatagramSize : Z)
    (options : CongestionOptions) (tracer : ConnectionTracer)
  : list LogCall * SendAlgorithmWithDebugInfos :=
  if ControlType options =? NewRenoControlType then
    ([Infof ("Congestion Control: NewReno with hystart: "
               ++ hystartTypeToString (Hystart options))],
     NewCubicSender DefaultClock rttStats initialMaxDatagramSize
                    true (Hystart options) tracer)
  else
    ([Infof ("Congestion Control: Cubic with hystart: "
               ++ hystartTypeToString (Hystart options))],
     NewCubicSender DefaultClock rttStats initialMaxDatagramSize
                    false (Hystart options) tracer).
End Factory.

End Congestion.

(** ** Package [ackhandler]: [NewAckHandler] *)

Module AckHandler.
Import Congestion.

Section Pair.
(** Handlers are heap objects: a constructor takes the heap and returns
    the reference to the new object with the heap it leaves. Both
    constructors live in other files of the package. *)
Context {Heap RTTStatsRef Perspective ConnectionTracer Logger : Type}.
Context {SentPacketHandler ReceivedPacketHandler : Type}.
Variable newSentPacketHandler :
  Z → Z → RTTStatsRef → Perspective → CongestionOptions → ConnectionTracer →
  Logger → Heap → SentPacketHandler * Heap.
Variable newReceivedPacketHandler :
  SentPacketHandler → RTTStatsRef → Logger → Z → Heap →
  ReceivedPacketHandler * Heap.

Definition NewAckHandler
    (initialPacketNumber initialMaxDatagramSize : Z) (rttStats : RTTStatsRef)
    (pers : Perspective) (tracer : ConnectionTracer) (logger : Logger)
    (version : Z) (congestion : CongestionOptions) (h : Heap)
  : (SentPacketHandler * ReceivedPacketHandler) * Heap :=
  let '(sph, h1) :=
    newSentPacketHandler initialPacketNumber initialMaxDatagramSize rttStats
                         pers congestion tracer logger h in
  let '(rph, h2) := newReceivedPacketHandler sph rttStats logger version h1 in
  ((sph, rph), h2).
End Pair.

(** A store of handler objects in which the wiring can be read off. *)
Inductive Object : Type :=
  | SentObj (rtt : nat) (opts : CongestionOptions) (firstPN size : Z)
  | RecvObj (sent : nat) (rtt : nat) (version : Z).

Definition alloc (o : Object) (h : gmap nat Object) : nat * gmap nat Object :=
  let l := fresh (dom h) in (l, <[l := o]> h).

(** Modelled from the spec: the two constructors, which are not among the
    sources; each stores the references it is given. *)
Definition storeSent (pn size : Z) (rtt : nat) (pers : bool) (opts : CongestionOptions)
    (tracer logger : unit) (h : gmap nat Object) : nat * gmap nat Object :=
  alloc (SentObj rtt opts pn size) h.

Definition storeRecv (sph rtt : nat) (logger : unit) (version : Z)
    (h : gmap nat Object) : nat * gmap nat Object :=
  alloc (RecvObj sph rtt version) h.

End AckHandler.

(** ** The dual-stack listener, [ListenAndServe] *)

Module Listener.

Definition error : Set := string.

(** What the operating system and the key loader answer; [None] is the
    nil error. The certificate, addresses and connections themselves
    carry nothing the listener inspects. *)
Record Env : Type := mkEnv {
  LoadX509KeyPair : string → string → option error;
  ResolveUDPAddr : string → option error;
  ListenUDP : string → option error;
  ResolveTCPAddr : string → option error;
  ListenTCP : string → option error
}.

Inductive Action : Type :=
  | UDPOpened (addr : string)
  | TCPOpened (addr : string)
  | TLSWrapped
  | GoHTTPServe               (* go func() { hErr <- httpServer.Serve(tlsConn) }() *)
  | GoQUICServe               (* go func() { qErr <- quicServer.Serve(udpConn) }() *)
  | QuicServerClose           (* quicServer.Close() *)
  | Close_udpConn
  | Close_tcpConn
  | Close_tlsConn.

(** The listener up to the [select]: either an early [return err], with
    the deferred closes registered so far already run, or both servers
    started. *)
Definition bind (env : Env) (addr certFile keyFile : string)
  : list Action * (error + unit) :=
  match LoadX509KeyPair env certFile keyFile with
  | Some e => ([], inl e)
  | None =>
  match ResolveUDPAddr env addr with
  | Some e => ([], inl e)
  | None =>
  match ListenUDP env addr with
  | Some e => ([], inl e)
  | None =>
  match ResolveTCPAddr env addr with
  | Some e => ([UDPOpened addr; Close_udpConn], inl e)
  | None =>
  match ListenTCP env addr with
  | Some e => ([UDPOpened addr; Close_udpConn], inl e)
  | None =>
      ([UDPOpened addr; TCPOpened addr; TLSWrapped; GoHTTPServe; GoQUICServe], inr tt)
  end end end end end.

(** The closes deferred by the time of the [select], in the order they
    run at [return]. *)
Definition deferred : list Action := [Close_tlsConn; Close_tcpConn; Close_udpConn].

(** A server goroutine: its [Serve] call is running, or has returned [e]
    and the goroutine is blocked sending [e] on its unbuffered channel,
    or the value has been received. *)
Inductive Srv : Type :=
  | Running
  | Sending (e : option error)
  | Delivered.

Record State : Type := mkState {
  http : Srv;
  quic : Srv;
  result : option (option error);   (* [None]: the listener is at the select *)
  actions : list Action
}.

Definition serving (acts : list Action) : State := mkState Running Running None acts.

(** The moves of the three goroutines. A [select] case can be taken only
    when its channel has a blocked sender; with both ready either may. *)
Inductive Label : Type :=
  | HTTPReturns (e : option error)
  | QUICReturns (e : option error)
  | RecvH
  | RecvQ.

Definition step (s : State) (l : Label) : option State :=
  match l with
  | HTTPReturns e =>
      match http s with
      | Running => Some (mkState (Sending e) (quic s) (result s) (actions s))
      | _ => None
      end
  | QUICReturns e =>
      match quic s with
      | Running => Some (mkState (http s) (Sending e) (result s) (actions s))
      | _ => None
      end
  | RecvH =>
      match result s, http s with
      | None, Sending e =>
          Some (mkState Delivered (quic s) (Some e)
                        (actions s ++ QuicServerClose :: deferred))
      | _, _ => None
      end
  | RecvQ =>
      match result s, quic s with
      | None, Sending e =>
          Some (mkState (http s) Delivered (Some e) (actions s ++ deferred))
      | _, _ => None
      end
  end.

Fixpoint run (s : State) (ls : list Label) : option State :=
  match ls with
  | [] => Some s
  | l :: ls' =>
      match step s l with
      | Some s' => run s' ls'
      | None => None
      end
  end.

(** Which server's [Serve] returned first in a run. *)
Inductive Server : Set := Stream | Datagram.

Fixpoint first_terminated (ls : list Label) : option (Server * option error) :=
  match ls with
  | [] => None
  | HTTPReturns e :: _ => Some (Stream, e)
  | QUICReturns e :: _ => Some (Datagram, e)
  | _ :: ls' => first_terminated ls'
  end.

(** The servers whose [Serve] has returned when the [select] takes a case. *)
Fixpoint terminated_before_select (ls : list Label) : list Server :=
  match ls with
  | [] => []
  | HTTPReturns _ :: ls' => Stream :: terminated_before_select ls'
  | QUICReturns _ :: ls' => Datagram :: terminated_before_select ls'
  | RecvH :: _ | RecvQ :: _ => []
  end.

(** [ListenAndServe] under a schedule [ls] of the serving phase: the
    actions it performed and the error it returned, or [None] when the
    schedule is not one of the program or leaves the listener at the
    [select]. *)
Definition ListenAndServe (env : Env) (addr certFile keyFile : string)
    (ls : list Label) : option (list Action * option error) :=
  match bind env addr certFile keyFile with
  | (acts, inl e) => Some (acts, Some e)
  | (acts, inr _) =>
      match run (serving acts) ls with
      | Some s =>
          match result s with
          | Some r => Some (actions s, r)
          | None => None
          end
      | None => None
      end
  end.

(** An environment in which the key pair loads and both sockets open. *)
Definition allOk : Env :=
  mkEnv (λ _ _, None) (λ _, None) (λ _, None) (λ _, None) (λ _, None).

End Listener.

(** ** The server program, [main] *)

Module Server.
Import Congestion.

Definition error : Set := string.

Definition congestionMap : gmap string CongestionControlType :=
  {[ "newreno" := NewRenoControlType; "cubic" := CubicControlType ]}.

Definition hystartMap : gmap string HystartControlType :=
  {[ "standard" := HystartTypeStandard; "plusplus" := HystartTypePlusPlus;
     "none" := HystartTypeNone ]}.

(** The parsed command line. *)
Record Flags : Type := mkFlags {
  verbose : bool;
  bs : list string;
  www : string;
  enableQlog : bool;
  certFile : string;
  keyFile : string;
  congestionAlgo : string;
  hystart : string
}.

(** The flag defaults: what [flag.Parse] leaves for an empty command line. *)
Definition defaultFlags : Flags :=
  mkFlags false [] "" false "" "" "newreno" "standard".

(** [os.Stat] as [main] reads it: only [os.IsNotExist(err)] is tested. *)
Inductive StatResult : Set := StatOk | StatNotExist | StatOtherError.

Definition IsNotExist (r : StatResult) : bool :=
  match r with StatNotExist => true | _ => false end.

Record Config : Set := mkConfig {
  Congestion : CongestionOptions;
  Tracer : bool                    (* a qlog tracer is installed *)
}.

Inductive Event : Type :=
  | SetLogLevelDebug
  | SetLogLevelInfo
  | SetLogTimeFormat (format : string)
  | Log (c : LogCall)
  | Println (e : error).

(** How the sequential part of [main] ends: [os.Exit(code)], or the launch
    of one listener goroutine per bind target. *)
Inductive Startup : Type :=
  | Exit (code : Z)
  | Launch (binds : list string) (quicConf : Config).

Definition main_startup (fl : Flags) (Stat : string → StatResult)
  : list Event * Startup :=
  let ev0 := [ (if verbose fl then SetLogLevelDebug else SetLogLevelInfo);
               SetLogTimeFormat "" ] in
  if String.eqb (certFile fl) "" then
    ((ev0 ++ [Log (Errorf ("cert argument is required" ++ Handler.nl))])%list, Exit 1)
  else if IsNotExist (Stat (certFile fl)) then
    ((ev0 ++ [Log (Errorf ("cert file " ++ certFile fl ++ " does not exist" ++ Handler.nl))])%list,
     Exit 1)
  else if String.eqb (keyFile fl) "" then
    ((ev0 ++ [Log (Errorf ("key argument is required" ++ Handler.nl))])%list, Exit 1)
  else if IsNotExist (Stat (keyFile fl)) then
    ((ev0 ++ [Log (Errorf ("key file " ++ keyFile fl ++ " does not exist" ++ Handler.nl))])%list,
     Exit 1)
  else
    let bs := match bs fl with [] => ["localhost:6121"] | _ => bs fl end in
    match congestionMap !! congestionAlgo fl with
    | None =>
        ((ev0 ++ [Log (Errorf ("congestion control algo " ++ congestionAlgo fl
                                ++ " is not found" ++ Handler.nl))])%list, Exit 1)
    | Some congestionControl =>
        match hystartMap !! hystart fl with
        | None =>
            ((ev0 ++ [Log (Errorf ("hystart algo " ++ hystart fl
                                    ++ " is not found" ++ Handler.nl))])%list, Exit 1)
        | Some hystartControl =>
            (ev0, Launch bs (mkConfig (mkOptions congestionControl hystartControl)
                                      (enableQlog fl)))
        end
    end.

(** *** Vocabulary for the start-up properties

    The credentials pass the checks of [main]: both arguments are given
    and neither file is reported missing. *)
Definition credentials_present (fl : Flags) (Stat : string → StatResult) : Prop :=
  certFile fl ≠ "" ∧ Stat (certFile fl) ≠ StatNotExist
  ∧ keyFile fl ≠ "" ∧ Stat (keyFile fl) ≠ StatNotExist.

Definition prologue (fl : Flags) : list Event :=
  [ (if verbose fl then SetLogLevelDebug else SetLogLevelInfo); SetLogTimeFormat "" ].

(** *** The goroutines of the launch loop

    [for _, b := range bs { bCap := b; go func() { ... }() }] followed by
    [wg.Wait()]. The range variable [b] is one variable for the whole
    loop; every closure captures that variable and its own [bCap]. *)

Inductive GPC : Type :=
  | GStart
  | GLogged                              (* after Infof("Start server on %s\n", bCap) *)
  | GCalling (addr : string)             (* inside ListenAndServe(addr, ...) *)
  | GReturned (err : option error)
  | GDone.                               (* after wg.Done() *)

Record Goroutine : Type := mkGoroutine {
  bCap : string;
  gpc : GPC
}.

Inductive MainPC : Set := InLoop | Waiting | Exited.

Record Orch : Type := mkOrch {
  rest : list string;       (* the elements the loop has still to visit *)
  b : string;               (* the shared range variable *)
  pc : MainPC;
  gs : list Goroutine;
  wg : Z;
  out : list Event
}.

(** [wg.Add(len(bs))] has run and the loop is about to start. *)
Definition launch (binds : list string) : Orch :=
  mkOrch binds "" InLoop [] (Z.of_nat (length binds)) [].

(** A move of the main goroutine, or of the [i]-th listener goroutine;
    [ret] is what [ListenAndServe] returns when that is the move. *)
Inductive Label : Type :=
  | MainStep
  | GoStep (i : nat) (ret : option error).

Definition setG (o : Orch) (i : nat) (g : Goroutine) (wg' : Z) (out' : list Event) : Orch :=
  mkOrch (rest o) (b o) (pc o) (<[i := g]> (gs o)) wg' out'.

Definition step (o : Orch) (l : Label) : option Orch :=
  match pc o, l with
  | Exited, _ => None
  | InLoop, MainStep =>
      match rest o with
      | x :: xs =>
          Some (mkOrch xs x InLoop (gs o ++ [mkGoroutine x GStart]) (wg o) (out o))
      | [] => Some (mkOrch [] (b o) Waiting (gs o) (wg o) (out o))
      end
  | Waiting, MainStep =>
      if wg o =? 0 then Some (mkOrch (rest o) (b o) Exited (gs o) (wg o) (out o))
      else None
  | _, GoStep i ret =>
      match gs o !! i with
      | None => None
      | Some g =>
          match gpc g with
          | GStart =>
              Some (setG o i (mkGoroutine (bCap g) GLogged) (wg o)
                         (out o ++ [Log (Infof ("Start server on " ++ bCap g ++ Handler.nl))])%list)
          | GLogged =>
              Some (setG o i (mkGoroutine (bCap g) (GCalling (b o))) (wg o) (out o))
          | GCalling _ =>
              Some (setG o i (mkGoroutine (bCap g) (GReturned ret)) (wg o) (out o))
          | GReturned (Some e) =>
              Some (setG o i (mkGoroutine (bCap g) GDone) (wg o - 1) (out o ++ [Println e]))
          | GReturned None =>
              Some (setG o i (mkGoroutine (bCap g) GDone) (wg o - 1) (out o))
          | GDone => None
          end
      end
  end.

Fixpoint run (o : Orch) (ls : list Label) : option Orch :=
  match ls with
  | [] => Some o
  | l :: ls' =>
      match step o l with
      | Some o' => run o' ls'
      | None => None
      end
  end.

(** The addresses with which [ListenAndServe] has been entered, by
    goroutine: the listener of bind target [bCap] was given [addr]. *)
Definition called (o : Orch) : list (string * string) :=
  gs o ≫= (λ g, match gpc g with GCalling a => [(bCap g, a)] | _ => [] end).

(** Listener goroutines that have not reached [wg.Done()] yet. *)
Definition pending (g : Goroutine) : Z :=
  match gpc g with GDone => 0 | _ => 1 end.

Definition pending_total (l : list Goroutine) : Z :=
  foldr (λ g acc, pending g + acc) 0 l.

(** What holds of every state the launch of [binds] reaches: a goroutine
    was spawned for each target visited, in order, the wait group counts
    the targets not yet visited and the goroutines not yet done, and
    [main] is past [wg.Wait()] only with the count at zero. *)
Definition orch_inv (binds : list string) (o : Orch) : Prop :=
  ((bCap <$> gs o) ++ rest o)%list = binds
  ∧ wg o = Z.of_nat (length (rest o)) + pending_total (gs o)
  ∧ (pc o ≠ InLoop → rest o = [])
  ∧ (pc o = Exited → wg o = 0).

End Server.

(** ** Decimal numerals, for stating what the endpoint is asked *)

Module Decimal.

(** A numeral is the list of its digit values, most significant first. *)
Definition is_digits (ds : list Z) : Prop := ds ≠ [] ∧ Forall (λ d, 0 <= d <= 9) ds.

Definition digit_char (d : Z) : ascii := Ascii.ascii_of_N (Z.to_N (48 + d)).

Definition numeral (ds : list Z) : string := string_of_list_ascii (digit_char <$> ds).

Definition value (ds : list Z) : Z := foldl (λ acc d, acc * 10 + d) 0 ds.

End Decimal.

(** ** The [binds] flag value: [String] and [Set] *)

Module Binds.

(** [strings.Join(elems, sep)]. *)
Fixpoint Join (elems : list string) (sep : string) : string :=
  match elems with
  | [] => ""
  | [a] => a
  | a :: rest => a ++ sep ++ Join rest sep
  end.

(** [strings.Split(s, sep)] for a one-byte separator: the pieces between
    the separators, one more than there are separators. *)
Fixpoint Split_byte (s : string) (sep : ascii) : list string :=
  match s with
  | EmptyString => [""]
  | String c s' =>
      if Ascii.eqb c sep then "" :: Split_byte s' sep
      else match Split_byte s' sep with
           | h :: t => String c h :: t
           | [] => [String c ""]
           end
  end.

(** [func (b binds) String() string]. *)
Definition binds_String (b : list string) : string := Join b ",".

(** [func (b *binds) Set(v string) error]: the new value of [*b]; the
    error is always nil. *)
Definition binds_Set (b : list string) (v : string) : list string := Split_byte v ",".

(** [flag.Var(&bs, "bind", ...)] with [flag.Parse]: [Set] is called once
    for each occurrence of the flag, in order, starting from [binds{}]. *)
Definition bind_flag (occurrences : list string) : list string :=
  foldl binds_Set [] occurrences.

(** The string has no byte [c]. *)
Fixpoint free_of (c : ascii) (s : string) : Prop :=
  match s with
  | EmptyString => True
  | String x s' => x ≠ c ∧ free_of c s'
  end.

(** The number of bytes [c] of the string. *)
Fixpoint count_byte (c : ascii) (s : string) : nat :=
  match s with
  | EmptyString => 0
  | String x s' => (if Ascii.eqb x c then 1 else 0) + count_byte c s'
  end.

End Binds.

(** ** Vocabulary for the listener's sockets and goroutines *)

Module Release.
Import Listener.

(** A socket of the listener: not opened yet, open, or closed. *)
Inductive SockState : Set := NotOpened | Open | Closed.

Record Sockets : Set := mkSockets { udp : SockState; tcp : SockState }.

(** [Close] on a socket: closing a closed socket changes nothing (the
    call only returns an error, which the deferred calls drop). *)
Definition close (s : SockState) : SockState :=
  match s with
  | NotOpened => NotOpened
  | Open | Closed => Closed
  end.

(** What a call of the listener does to its two sockets. The TLS
    listener wraps the TCP listener and has no socket of its own:
    [tlsConn.Close()] is the TCP listener's [Close]. *)
Definition socket_step (s : Sockets) (a : Action) : Sockets :=
  match a with
  | UDPOpened _ => mkSockets Open (tcp s)
  | TCPOpened _ => mkSockets (udp s) Open
  | Close_udpConn => mkSockets (close (udp s)) (tcp s)
  | Close_tcpConn | Close_tlsConn => mkSockets (udp s) (close (tcp s))
  | TLSWrapped | GoHTTPServe | GoQUICServe | QuicServerClose => s
  end.

Definition sockets_after (trace : list Action) : Sockets :=
  foldl socket_step (mkSockets NotOpened NotOpened) trace.

Definition is_close (a : Action) : bool :=
  match a with
  | Close_udpConn | Close_tcpConn | Close_tlsConn => true
  | _ => false
  end.

(** The first failure among the five set-up calls, in program order. *)
Definition first_error (env : Env) (addr certFile keyFile : string) : option error :=
  match LoadX509KeyPair env certFile keyFile with
  | Some e => Some e
  | None =>
  match ResolveUDPAddr env addr with
  | Some e => Some e
  | None =>
  match ListenUDP env addr with
  | Some e => Some e
  | None =>
  match ResolveTCPAddr env addr with
  | Some e => Some e
  | None => ListenTCP env addr
  end end end end.

(** At most one of the two sends is ever received, and only by the
    [select]: before the listener returns neither goroutine has
    delivered, afterwards exactly one has. *)
Definition one_receive (s : State) : Prop :=
  match result s with
  | None => http s ≠ Delivered ∧ quic s ≠ Delivered
  | Some _ =>
      (http s = Delivered ∧ quic s ≠ Delivered)
      ∨ (quic s = Delivered ∧ http s ≠ Delivered)
  end.

End Release.

(** ** Vocabulary for the addresses the listener goroutines are given *)

Module Scope.
Import Server.

(** The shared range variable holds the target of the goroutine spawned
    last, and a goroutine inside [ListenAndServe] was given the target of
    itself or of a goroutine spawned after it. *)
Definition addr_inv (o : Orch) : Prop :=
  (gs o ≠ [] → last (bCap <$> gs o) = Some (b o))
  ∧ (∀ (i : nat) (g : Goroutine) (a : string),
        gs o !! i = Some g → gpc g = GCalling a →
        ∃ j : nat, (i ≤ j)%nat ∧ (bCap <$> gs o) !! j = Some a).

End Scope.

(** ** The qlog tracer callback of [main] *)

Module Qlog.
Import HTTP.

(** [fmt.Sprintf("server_%x.qlog", connID)], as bytes. *)
Definition filename (connID : list Z) : list Z :=
  (bytes_of_string "server_" ++ MD5.hex connID ++ bytes_of_string ".qlog")%list.

Inductive Event : Type :=
  | Fatal (err : string)                  (* log.Fatal(err): prints, then os.Exit(1) *)
  | Printf_creating (name : list Z).      (* log.Printf("Creating qlog file %s.\n", filename) *)

(** The callback given to [qlog.NewTracer]: what it logs and the file its
    writer is buffered onto, [None] after [log.Fatal]. [Create] is
    [os.Create], answering with its error. *)
Definition tracer (Create : list Z → option string) (connID : list Z)
  : list Event * option (list Z) :=
  let name := filename connID in
  match Create name with
  | Some err => ([Fatal err], None)
  | None => ([Printf_creating name], Some name)
  end.

End Qlog.

(** * Properties *)

(** ** The payload generator *)

Module PRData_facts.
Import Mach PRData.

Lemma byte_of_mod x : byte_of x = x mod 2 ^ 8.
Proof. unfold byte_of. change 255 with (Z.ones 8). apply Z.land_ones. lia. Qed.

Lemma byte_of_range x : 0 <= byte_of x < 256.
Proof. rewrite byte_of_mod. apply Z.mod_pos_bound. lia. Qed.

Lemma lehmer_range i : 0 <= lehmer i < 2 ^ 31.
Proof.
  destruct i as [|i]; cbn [lehmer]; [lia|].
  pose proof (Z.mod_pos_bound (wrap64 (lehmer i * 48271)) (2 ^ 31 - 1)). lia.
Qed.

(** The product never reaches [2^64]: the 64-bit generator is the exact one. *)
Lemma lehmer_no_overflow i : lehmer i = lehmer_exact i.
Proof.
  induction i as [|i IH]; [reflexivity|].
  cbn [lehmer lehmer_exact]. rewrite <- IH.
  unfold wrap64. rewrite (Z.mod_small (lehmer i * 48271)); [reflexivity|].
  pose proof (lehmer_range i). lia.
Qed.

Lemma next_seed_lehmer i : next_seed (lehmer i) = lehmer (S i).
Proof. reflexivity. Qed.

Lemma lehmer_bytes_length l : length (lehmer_bytes l) = l.
Proof. unfold lehmer_bytes. by rewrite length_fmap, length_seq. Qed.

Lemma lehmer_bytes_lookup l i :
  (i < l)%nat → lehmer_bytes l !! i = Some (lehmer (S i) mod 2 ^ 8).
Proof.
  intros Hi. unfold lehmer_bytes. rewrite list_lookup_fmap.
  rewrite lookup_seq_lt by done. reflexivity.
Qed.

Lemma lehmer_bytes_S l :
  lehmer_bytes (S l) = (lehmer_bytes l ++ [lehmer (S l) mod 2 ^ 8])%list.
Proof. unfold lehmer_bytes. rewrite seq_S, fmap_app. reflexivity. Qed.

(** The loop invariant: after [i] turns the seed is [lehmer i], the first
    [i] cells are final, and the [n] turns left fill the next [n] cells. *)
Lemma generatePRData_loop_spec n : ∀ i (res : list Z),
  length res = (i + n)%nat →
  generatePRData_loop n i (lehmer i) res
  = (take i res ++ ((λ k, lehmer (S k) mod 2 ^ 8) <$> seq i n))%list.
Proof.
  induction n as [|n IH]; intros i res Hlen.
  - cbn. rewrite app_nil_r, take_ge; [done | lia].
  - cbn [generatePRData_loop]. rewrite next_seed_lehmer.
    rewrite IH by (rewrite length_insert; lia).
    rewrite (take_S_r _ i (byte_of (lehmer (S i)))).
    + rewrite take_insert_ge by lia. rewrite <- app_assoc.
      cbn [seq fmap list_fmap app]. by rewrite byte_of_mod.
    + apply list_lookup_insert_eq. lia.
Qed.

Lemma generatePRData_eq l :
  0 <= l → generatePRData l = Some (lehmer_bytes (Z.to_nat l)).
Proof.
  intros Hl. unfold generatePRData.
  destruct (l <? 0) eqn:E; [lia|]. f_equal.
  change 1 with (lehmer 0).
  rewrite generatePRData_loop_spec by (rewrite length_replicate; lia).
  reflexivity.
Qed.

(** C4: for every length [l >= 0], [generatePRData l] returns the bytes
    of the Lehmer generator with state [s_0 = 1] and step
    [s_{i+1} = s_i * 48271 mod (2^31 - 1)] on 64-bit words (where the
    product never overflows), byte [i] being the low eight bits of
    [s_{i+1}]; the result has exactly [l] bytes. *)
Theorem C4_generatePRData_is_lehmer (l : Z) (Hl : 0 <= l) :
  ∃ res : list Z,
    generatePRData l = Some res
    ∧ Z.of_nat (length res) = l
    ∧ res = lehmer_bytes (Z.to_nat l)
    ∧ (∀ i : nat, (Z.of_nat i < l) →
         res !! i = Some (Z.land (lehmer (S i)) 255)
         ∧ lehmer (S i) = (lehmer i * 48271) mod (2 ^ 31 - 1)).
Proof.
  exists (lehmer_bytes (Z.to_nat l)). split; [by apply generatePRData_eq|].
  split; [rewrite lehmer_bytes_length; lia|]. split; [done|].
  intros i Hi. split.
  - rewrite lehmer_bytes_lookup by lia. f_equal.
    symmetry. apply byte_of_mod.
  - rewrite !lehmer_no_overflow. reflexivity.
Qed.

Lemma C4_witness :
  ∃ res : list Z,
    generatePRData 8 = Some res
    ∧ Z.of_nat (length res) = 8
    ∧ res = lehmer_bytes (Z.to_nat 8)
    ∧ (∀ i : nat, (Z.of_nat i < 8) →
         res !! i = Some (Z.land (lehmer (S i)) 255)
         ∧ lehmer (S i) = (lehmer i * 48271) mod (2 ^ 31 - 1)).
Proof. apply (C4_generatePRData_is_lehmer 8). lia. Defined.

Example generatePRData_8 :
  generatePRData 8 = Some [143; 226; 70; 125; 241; 35; 81; 89].
Proof. reflexivity. Qed.

Example generatePRData_negative : generatePRData (-1) = None.
Proof. reflexivity. Qed.

(** C5: the generator is a function of the position alone: asking twice
    for [n] bytes gives the same bytes, the first [n] of the [n + 1] bytes
    are the [n] bytes, and byte [i] is the same in every output that has
    it. *)
Theorem C5_generatePRData_position_pure (n : Z) (Hn : 0 <= n) :
  ∃ bs bs' : list Z,
    generatePRData n = Some bs
    ∧ (∀ again, generatePRData n = Some again → again = bs)
    ∧ generatePRData (n + 1) = Some bs'
    ∧ take (Z.to_nat n) bs' = bs
    ∧ (∀ (m : Z) (i : nat), Z.of_nat i < n → n <= m →
         ∃ cs x, generatePRData m = Some cs ∧ cs !! i = Some x ∧ bs !! i = Some x).
Proof.
  exists (lehmer_bytes (Z.to_nat n)), (lehmer_bytes (Z.to_nat (n + 1))).
  split; [by apply generatePRData_eq|]. split.
  { intros again. rewrite generatePRData_eq by done. congruence. }
  split; [apply generatePRData_eq; lia|]. split.
  - replace (Z.to_nat (n + 1)) with (S (Z.to_nat n)) by lia.
    rewrite lehmer_bytes_S. rewrite take_app_length'; [done|].
    by rewrite lehmer_bytes_length.
  - intros m i Hi Hm. exists (lehmer_bytes (Z.to_nat m)), (lehmer (S i) mod 2 ^ 8).
    split; [apply generatePRData_eq; lia|].
    split; apply lehmer_bytes_lookup; lia.
Qed.

Lemma C5_witness :
  ∃ bs bs' : list Z,
    generatePRData 5 = Some bs
    ∧ (∀ again, generatePRData 5 = Some again → again = bs)
    ∧ generatePRData (5 + 1) = Some bs'
    ∧ take (Z.to_nat 5) bs' = bs
    ∧ (∀ (m : Z) (i : nat), Z.of_nat i < 5 → 5 <= m →
         ∃ cs x, generatePRData m = Some cs ∧ cs !! i = Some x ∧ bs !! i = Some x).
Proof. apply (C5_generatePRData_position_pure 5). lia. Defined.

End PRData_facts.

(** ** Parsing the byte count *)

Module Strconv_facts.
Import Mach Strconv Decimal.

Lemma code_digit_char d : 0 <= d <= 9 → code (digit_char d) = 48 + d.
Proof.
  intros Hd.
  assert (d = 0 ∨ d = 1 ∨ d = 2 ∨ d = 3 ∨ d = 4 ∨ d = 5 ∨ d = 6 ∨ d = 7
          ∨ d = 8 ∨ d = 9) as Hc by lia.
  repeat (destruct Hc as [-> | Hc]; [reflexivity|]). by subst.
Qed.

Lemma digit_char_not_sign d c :
  0 <= d <= 9 → code c < 48 → Ascii.eqb (digit_char d) c = false.
Proof.
  intros Hd Hc. apply Ascii.eqb_neq. intros <-.
  rewrite code_digit_char in Hc by done. lia.
Qed.

Lemma value_app ds d : value (ds ++ [d]) = value ds * 10 + d.
Proof. unfold value. by rewrite foldl_app. Qed.

Lemma foldl_digits_ge ds : ∀ acc,
  Forall (λ d, 0 <= d <= 9) ds → 0 <= acc →
  acc <= foldl (λ acc d, acc * 10 + d) acc ds.
Proof.
  induction ds as [|d ds IH]; intros acc Hds Hacc; cbn; [lia|].
  inversion Hds as [|? ? Hd Hds']; subst.
  specialize (IH (acc * 10 + d) Hds' ltac:(lia)). lia.
Qed.

(** The digit loop on a numeral computes its value, as long as the value
    fits 64 bits. *)
Lemma ParseUint_loop_digits ds : ∀ acc,
  Forall (λ d, 0 <= d <= 9) ds → 0 <= acc →
  foldl (λ acc d, acc * 10 + d) acc ds < 2 ^ 64 →
  ParseUint_loop 10 (digit_char <$> ds) acc
  = (foldl (λ acc d, acc * 10 + d) acc ds, None).
Proof.
  induction ds as [|d ds IH]; intros acc Hds Hacc Hfit; [reflexivity|].
  inversion Hds as [|? ? Hd Hds']; subst.
  cbn [fmap list_fmap ParseUint_loop foldl] in *.
  rewrite code_digit_char by done.
  pose proof (foldl_digits_ge ds (acc * 10 + d) Hds' ltac:(lia)) as Hge.
  replace ((48 <=? 48 + d) && (48 + d <=? 57)) with true
    by (symmetry; apply andb_true_iff; lia).
  replace (48 + d - 48) with d by lia.
  replace (10 <=? d) with false by lia.
  replace (maxUint64 / 10 + 1 <=? acc) with false
    by (symmetry; apply Z.leb_gt; change (maxUint64 / 10 + 1) with 1844674407370955162; lia).
  cbv zeta. unfold wrap64.
  rewrite (Z.mod_small (acc * 10)) by lia.
  rewrite (Z.mod_small (acc * 10 + d)) by lia.
  replace ((acc * 10 + d <? acc * 10) || (maxUint64 <? acc * 10 + d)) with false.
  - apply IH; [done | lia | done].
  - symmetry. apply orb_false_iff. unfold maxUint64. lia.
Qed.

Lemma numeral_cons d ds : numeral (d :: ds) = String (digit_char d) (numeral ds).
Proof. reflexivity. Qed.

Lemma list_ascii_numeral ds : list_ascii_of_string (numeral ds) = digit_char <$> ds.
Proof. apply list_ascii_of_string_of_list_ascii. Qed.

Lemma ParseUint_numeral ds :
  is_digits ds → value ds < 2 ^ 64 → ParseUint (numeral ds) 10 = (value ds, None).
Proof.
  intros [Hne Hds] Hfit. destruct ds as [|d ds]; [done|].
  unfold ParseUint. rewrite numeral_cons. rewrite <- numeral_cons.
  rewrite list_ascii_numeral. by apply ParseUint_loop_digits.
Qed.

Lemma value_nonneg ds : Forall (λ d, 0 <= d <= 9) ds → 0 <= value ds.
Proof. intros H. by apply (foldl_digits_ge ds 0). Qed.

(** [ParseInt] reads an unsigned numeral below [2^63] as its value. *)
Lemma ParseInt_numeral ds :
  is_digits ds → value ds < 2 ^ 63 → ParseInt (numeral ds) 10 = (value ds, None).
Proof.
  intros Hd Hfit. pose proof Hd as [Hne Hds].
  destruct ds as [|d ds]; [done|].
  inversion Hds as [|? ? Hd0 _]; subst.
  unfold ParseInt. rewrite numeral_cons.
  rewrite !digit_char_not_sign by (done || (vm_compute; done)).
  rewrite <- numeral_cons. rewrite ParseUint_numeral by (done || lia).
  cbn [negb andb]. replace (2 ^ 63 <=? value (d :: ds)) with false by lia.
  reflexivity.
Qed.

(** Dropping the slashes of ["/" ++ numeral] leaves the numeral. *)
Lemma ReplaceAll_numeral ds :
  Forall (λ d, 0 <= d <= 9) ds →
  ReplaceAll_byte_empty (numeral ds) "/" = numeral ds.
Proof.
  induction 1 as [|d ds Hd Hds IH]; [reflexivity|].
  rewrite numeral_cons. cbn [ReplaceAll_byte_empty].
  rewrite digit_char_not_sign by (done || (vm_compute; done)).
  by rewrite IH.
Qed.

End Strconv_facts.

(** ** The synthetic-content endpoint *)

Module Root_facts.
Import Mach Strconv Decimal PRData HTTP Multipart Handler.
Import PRData_facts Strconv_facts.

Lemma rootHandler_ok (r : Request) (n : Z) :
  asked r = (n, None) → 1 <= n <= 2 ^ 30 →
  rootHandler newResponse r
  = ([PrintRequest r], Some (mkResponse (Some 200) (lehmer_bytes (Z.to_nat n)))).
Proof.
  unfold asked, rootHandler. intros -> Hn. cbn [notNil orb].
  replace (n <=? 0) with false by lia.
  replace (maxSize <? n) with false
    by (symmetry; apply Z.ltb_ge; change maxSize with (2 ^ 30); lia).
  cbn [orb]. rewrite generatePRData_eq by lia. reflexivity.
Qed.

Lemma rootHandler_bad (r : Request) (n : Z) (err : option NumError) :
  asked r = (n, err) → err ≠ None ∨ n <= 0 ∨ 2 ^ 30 < n →
  rootHandler newResponse r = ([PrintRequest r], Some (mkResponse (Some 400) [])).
Proof.
  unfold asked, rootHandler. intros -> Hbad.
  destruct err as [e|]; [reflexivity|]. cbn [notNil orb].
  destruct Hbad as [Hbad | [Hbad | Hbad]]; [done | |].
  - replace (n <=? 0) with true by lia. reflexivity.
  - replace (maxSize <? n) with true
      by (symmetry; apply Z.ltb_lt; change maxSize with (2 ^ 30); lia).
    by rewrite orb_true_r.
Qed.

Lemma asked_numeral (r : Request) (ds : list Z) :
  RequestURI r = "/" ++ numeral ds → is_digits ds → value ds < 2 ^ 63 →
  asked r = (value ds, None).
Proof.
  intros Huri Hd Hfit. unfold asked. rewrite Huri.
  change ("/" ++ numeral ds) with (String "/" (numeral ds)).
  cbn [ReplaceAll_byte_empty]. rewrite Ascii.eqb_refl.
  rewrite ReplaceAll_numeral by apply Hd. by apply ParseInt_numeral.
Qed.

(** C3: a request URI that is a slash followed by a decimal numeral of
    value [n], [1 <= n <= 2^30], is answered with status 200 and a body of
    exactly [n] generated bytes; every other request is answered with
    status 400 and an empty body, whether the path fails to parse, or
    parses to [n <= 0] or to [n > 2^30]; so are the paths [0], [-5], [abc]
    and [2147483649], while [100] gets one hundred bytes. This is the
    handler [setupHandler] registers for ["/"] when no directory is served. *)
Theorem C3_synthetic_content_endpoint :
  (∀ (r : Request) (ds : list Z),
      RequestURI r = "/" ++ numeral ds → is_digits ds → 1 <= value ds <= 2 ^ 30 →
      ∃ w, (rootHandler newResponse r).2 = Some w
           ∧ status w = 200
           ∧ Z.of_nat (length (written w)) = value ds
           ∧ generatePRData (value ds) = Some (written w))
  ∧ (∀ r : Request, ∃ n err w,
        asked r = (n, err) ∧ (rootHandler newResponse r).2 = Some w
        ∧ ((err = None ∧ 1 <= n <= 2 ^ 30
            ∧ status w = 200 ∧ Z.of_nat (length (written w)) = n)
           ∨ ((err ≠ None ∨ n <= 0 ∨ 2 ^ 30 < n)
              ∧ status w = 400 ∧ written w = [])))
  ∧ (∀ (m : string) (b : Body),
        (∃ w, (rootHandler newResponse (mkRequest m "/100" b)).2 = Some w
              ∧ status w = 200 ∧ length (written w) = 100%nat)
        ∧ Forall (λ uri, (rootHandler newResponse (mkRequest m uri b)).2
                         = Some (mkResponse (Some 400) []))
                 ["/0"; "/-5"; "/abc"; "/2147483649"; "/1073741825"; "/"; "/1.5"; "/10?x=1"])
  ∧ setupHandler "" = [("/", HandlerFunc rootHandler); ("/upload", HandlerFunc uploadHandler)].
Proof.
  split; [|split; [|split]].
  - intros r ds Huri Hd Hn.
    pose proof (asked_numeral r ds Huri Hd ltac:(lia)) as Ha.
    rewrite (rootHandler_ok r _ Ha Hn). eexists. split; [reflexivity|].
    cbn [written status wroteHeader default]. rewrite lehmer_bytes_length.
    split; [done|]. split; [lia|]. apply generatePRData_eq. lia.
  - intros r. destruct (asked r) as [n err] eqn:Ha.
    destruct (decide (err = None ∧ 1 <= n <= 2 ^ 30)) as [[-> Hn] | Hno].
    + exists n, None. eexists. split; [done|].
      rewrite (rootHandler_ok r n Ha Hn). split; [reflexivity|]. left.
      cbn [written status wroteHeader default]. rewrite lehmer_bytes_length.
      repeat split; lia.
    + assert (err ≠ None ∨ n <= 0 ∨ 2 ^ 30 < n) as Hbad.
      { destruct err as [e|]; [by left | right].
        assert (¬ (1 <= n <= 2 ^ 30)) by (intros ?; by apply Hno). lia. }
      exists n, err. eexists. split; [done|].
      rewrite (rootHandler_bad r n err Ha Hbad). split; [reflexivity|].
      right. done.
  - intros m b. split.
    + eexists. split; [vm_compute; reflexivity|]. split; reflexivity.
    + repeat constructor.
  - reflexivity.
Qed.

End Root_facts.

(** ** The upload endpoint *)

Module Upload_facts.
Import Mach HTTP Multipart Handler MD5.

Lemma bytes_of_word_length n x : length (bytes_of_word n x) = n.
Proof. unfold bytes_of_word. by rewrite length_fmap, length_seq. Qed.

Lemma bytes_of_word_range n x : Forall (λ b, 0 <= b < 256) (bytes_of_word n x).
Proof.
  unfold bytes_of_word. apply Forall_fmap, Forall_forall. intros i _. cbn.
  change 255 with (Z.ones 8). rewrite Z.land_ones by lia.
  apply Z.mod_pos_bound. lia.
Qed.

Lemma Sum_length data : length (Sum data) = 16%nat.
Proof.
  unfold Sum. destruct (foldl block _ _) as [[[a b] c] d].
  rewrite !length_app, !bytes_of_word_length. reflexivity.
Qed.

Lemma Sum_range data : Forall (λ b, 0 <= b < 256) (Sum data).
Proof.
  unfold Sum. destruct (foldl block _ _) as [[[a b] c] d].
  rewrite !Forall_app. repeat split; apply bytes_of_word_range.
Qed.

Lemma hex_digit_lowercase n : 0 <= n < 16 → lowercase_hex (hex_digit n).
Proof. intros Hn. unfold hex_digit, lowercase_hex. destruct (n <? 10) eqn:E; lia. Qed.

Lemma hex_length bs : length (hex bs) = (2 * length bs)%nat.
Proof.
  unfold hex. induction bs as [|b bs IH]; [reflexivity|].
  cbn [mbind list_bind app length] in *. rewrite IH. lia.
Qed.

Lemma hex_lowercase bs :
  Forall (λ b, 0 <= b < 256) bs → Forall lowercase_hex (hex bs).
Proof.
  unfold hex. induction 1 as [|b bs Hb Hbs IH]; [constructor|].
  cbn [mbind list_bind app].
  apply Forall_cons; split; [|apply Forall_cons; split; [|exact IH]].
  - apply hex_digit_lowercase. rewrite Z.shiftr_div_pow2 by lia.
    change (2 ^ 4) with 16. split; [apply Z.div_pos; lia|].
    apply Z.div_lt_upper_bound; lia.
  - apply hex_digit_lowercase. change 15 with (Z.ones 4).
    rewrite Z.land_ones by lia. apply Z.mod_pos_bound. lia.
Qed.
















Example md5_abc :
  hex (Sum (bytes_of_string "abc")) = bytes_of_string "900150983cd24fb0d6963f7d28e17f72".
Proof. vm_compute. reflexivity. Qed.

Example md5_empty :
  hex (Sum []) = bytes_of_string "d41d8cd98f00b204e9800998ecf8427e".
Proof. vm_compute. reflexivity. Qed.





Example upload_without_filename_gets_form :
  uploadHandler newResponse
    (mkRequest "POST" "/upload"
       (BodyMultipart [mkPart "uploadfile" "" (bytes_of_string "abc")]))
  = ([Infof_upload ErrMissingFile], Some formPage).
Proof. vm_compute. reflexivity. Qed.

Example upload_with_bad_query_gets_form :
  uploadHandler newResponse
    (mkRequest "POST" "/upload?a=%zz"
       (BodyMultipart [mkPart "uploadfile" "a.txt" (bytes_of_string "abc")]))
  = ([Infof_upload "invalid URL escape"], Some formPage).
Proof. vm_compute. reflexivity. Qed.

End Upload_facts.

(** ** The congestion strategy factory *)

Module Congestion_facts.
Import Congestion.

Section Factory_facts.
Context {RTTStats ConnectionTracer Sender : Type}.
Variable NewCubicSender :
  Clock → RTTStats → Z → bool → HystartControlType → ConnectionTracer → Sender.

Lemma NewCongestionHandler_reno rtt size h tracer :
  NewCongestionHandler NewCubicSender rtt size (mkOptions NewRenoControlType h) tracer
  = ([Infof ("Congestion Control: NewReno with hystart: " ++ hystartTypeToString h)],
     NewCubicSender DefaultClock rtt size true h tracer).
Proof. reflexivity. Qed.

Lemma NewCongestionHandler_default rtt size t h tracer :
  t ≠ NewRenoControlType →
  NewCongestionHandler NewCubicSender rtt size (mkOptions t h) tracer
  = ([Infof ("Congestion Control: Cubic with hystart: " ++ hystartTypeToString h)],
     NewCubicSender DefaultClock rtt size false h tracer).
Proof.
  intros Ht. unfold NewCongestionHandler. cbn [ControlType Hystart].
  destruct (t =? NewRenoControlType) eqn:E; [|reflexivity].
  apply Z.eqb_eq in E. contradiction.
Qed.
End Factory_facts.

(** C7: for the NewReno control type the factory builds the cubic-family
    sender with the Reno flag set, for the Cubic control type the same
    sender with the flag cleared; the hystart variant of the options is
    passed on as it is, and one info-level message names the algorithm and
    the hystart variant. *)
Theorem C7_factory_shares_cubic_sender
    {RTTStats ConnectionTracer Sender : Type}
    (NewCubicSender :
       Clock → RTTStats → Z → bool → HystartControlType → ConnectionTracer → Sender)
    (rtt : RTTStats) (size : Z) (h : HystartControlType) (tracer : ConnectionTracer) :
  NewCongestionHandler NewCubicSender rtt size (mkOptions NewRenoControlType h) tracer
  = ([Infof ("Congestion Control: " ++ congestionTypeToString NewRenoControlType
               ++ " with hystart: " ++ hystartTypeToString h)],
     NewCubicSender DefaultClock rtt size true h tracer)
  ∧ NewCongestionHandler NewCubicSender rtt size (mkOptions CubicControlType h) tracer
    = ([Infof ("Congestion Control: " ++ congestionTypeToString CubicControlType
                 ++ " with hystart: " ++ hystartTypeToString h)],
       NewCubicSender DefaultClock rtt size false h tracer)
  ∧ hystartTypeToString HystartTypeStandard = "standard"
  ∧ hystartTypeToString HystartTypePlusPlus = "++"
  ∧ hystartTypeToString HystartTypeNone = "none".
Proof.
  split; [apply NewCongestionHandler_reno|].
  split; [by apply NewCongestionHandler_default|]. done.
Qed.

End Congestion_facts.

(** ** The packet handler pair *)

Module AckHandler_facts.
Import Congestion AckHandler.

Lemma alloc_lookup (o : Object) (h : gmap nat Object) :
  (alloc o h).2 !! (alloc o h).1 = Some o ∧ h !! (alloc o h).1 = None.
Proof.
  unfold alloc. cbn [fst snd]. split; [apply lookup_insert_eq|].
  apply not_elem_of_dom, is_fresh.
Qed.

(** C9: [NewAckHandler] returns the sent-packet handler it constructs
    from the packet number, datagram size, RTT statistics, perspective,
    congestion options, tracer and logger, together with the
    received-packet handler constructed from that very handler, the same
    RTT statistics, the logger and the version; in a store of objects the
    received handler's record holds the reference of the returned sent
    handler and both records hold the one RTT reference. *)
Theorem C9_NewAckHandler_wiring :
  (∀ (Heap RTTStatsRef Perspective ConnectionTracer Logger SPH RPH : Type)
     (newSentPacketHandler :
        Z → Z → RTTStatsRef → Perspective → CongestionOptions → ConnectionTracer →
        Logger → Heap → SPH * Heap)
     (newReceivedPacketHandler : SPH → RTTStatsRef → Logger → Z → Heap → RPH * Heap)
     (pn size : Z) (rtt : RTTStatsRef) (pers : Perspective) (tracer : ConnectionTracer)
     (logger : Logger) (version : Z) (opts : CongestionOptions) (h : Heap),
     ∃ sph h1 rph h2,
       newSentPacketHandler pn size rtt pers opts tracer logger h = (sph, h1)
       ∧ newReceivedPacketHandler sph rtt logger version h1 = (rph, h2)
       ∧ NewAckHandler newSentPacketHandler newReceivedPacketHandler
                       pn size rtt pers tracer logger version opts h
         = ((sph, rph), h2))
  ∧ (∀ (pn size version : Z) (rtt : nat) (pers : bool) (opts : CongestionOptions)
       (h : gmap nat Object),
       ∃ sph rph h2,
         NewAckHandler storeSent storeRecv pn size rtt pers tt tt version opts h
         = ((sph, rph), h2)
         ∧ h2 !! sph = Some (SentObj rtt opts pn size)
         ∧ h2 !! rph = Some (RecvObj sph rtt version)
         ∧ sph ≠ rph).
Proof.
  split.
  - intros. unfold NewAckHandler.
    destruct (newSentPacketHandler _ _ _ _ _ _ _ _) as [sph h1].
    destruct (newReceivedPacketHandler _ _ _ _ _) as [rph h2] eqn:Hr.
    exists sph, h1, rph, h2. by rewrite Hr.
  - intros. unfold NewAckHandler, storeSent, storeRecv.
    destruct (alloc (SentObj rtt opts pn size) h) as [sph h1] eqn:Hs.
    destruct (alloc (RecvObj sph rtt version) h1) as [rph h2] eqn:Hr.
    exists sph, rph, h2. split; [done|].
    pose proof (alloc_lookup (SentObj rtt opts pn size) h) as [Hs1 _].
    pose proof (alloc_lookup (RecvObj sph rtt version) h1) as [Hr1 Hr2].
    rewrite Hs in Hs1. rewrite Hr in Hr1, Hr2. cbn [fst snd] in *.
    assert (sph ≠ rph) as Hne by (intros ->; congruence).
    split; [|done].
    unfold alloc in Hr. inversion Hr; subst. by rewrite lookup_insert_ne.
Qed.

End AckHandler_facts.

(** ** The race of the two servers *)

Module Listener_facts.
Import Listener.

(** Once the listener has returned, its result and actions are final. *)
Lemma run_after_return (ls : list Label) : ∀ (s s' : State) (r : option error),
  run s ls = Some s' → result s = Some r →
  result s' = Some r ∧ actions s' = actions s.
Proof.
  induction ls as [|l ls IH]; intros s s' r Hrun Hr; cbn [run] in Hrun.
  - by inversion Hrun; subst.
  - destruct (step s l) as [s1|] eqn:Hstep; [|done].
    assert (result s1 = Some r ∧ actions s1 = actions s) as [Hr1 Ha1].
    { unfold step in Hstep. rewrite Hr in Hstep.
      destruct l; [destruct (http s) | destruct (quic s) | |];
        by inversion Hstep; subst. }
    destruct (IH s1 s' r Hrun Hr1) as [? ?]. split; congruence.
Qed.

(** Which case the [select] took, read off a finished run that started
    with the listener at the [select]. *)
Lemma run_select (ls : list Label) : ∀ (s s' : State) (r : option error),
  run s ls = Some s' → result s = None → result s' = Some r →
  (In RecvH ls ∧ (http s = Sending r ∨ In (HTTPReturns r) ls)
   ∧ actions s' = (actions s ++ QuicServerClose :: deferred)%list)
  ∨ (In RecvQ ls ∧ (quic s = Sending r ∨ In (QUICReturns r) ls)
     ∧ actions s' = (actions s ++ deferred)%list).
Proof.
  induction ls as [|l ls IH]; intros s s' r Hrun Hs Hr; cbn [run] in Hrun.
  - inversion Hrun; subst. congruence.
  - destruct (step s l) as [s1|] eqn:Hstep; [|done].
    unfold step in Hstep. rewrite Hs in Hstep. destruct l as [e|e| |].
    + destruct (http s) eqn:Hh; try done. inversion Hstep; subst; clear Hstep.
      destruct (IH _ s' r Hrun eq_refl Hr) as [(HR & Hsrc & Ha) | (HR & Hsrc & Ha)];
        cbn [http quic actions] in *; [left | right].
      * split; [by right|]. split; [|done]. right.
        destruct Hsrc as [Hsrc | Hsrc]; [inversion Hsrc; by left | by right].
      * split; [by right|]. split; [|done].
        destruct Hsrc as [Hsrc | Hsrc]; [by left | right; by right].
    + destruct (quic s) eqn:Hq; try done. inversion Hstep; subst; clear Hstep.
      destruct (IH _ s' r Hrun eq_refl Hr) as [(HR & Hsrc & Ha) | (HR & Hsrc & Ha)];
        cbn [http quic actions] in *; [left | right].
      * split; [by right|]. split; [|done].
        destruct Hsrc as [Hsrc | Hsrc]; [by left | right; by right].
      * split; [by right|]. split; [|done]. right.
        destruct Hsrc as [Hsrc | Hsrc]; [inversion Hsrc; by left | by right].
    + destruct (http s) as [|e|] eqn:Hh; try done.
      inversion Hstep; subst; clear Hstep.
      destruct (run_after_return ls _ s' e Hrun eq_refl) as [Hr' Ha].
      cbn [actions] in Ha. left. split; [by left|]. split; [|done]. left. congruence.
    + destruct (quic s) as [|e|] eqn:Hq; try done.
      inversion Hstep; subst; clear Hstep.
      destruct (run_after_return ls _ s' e Hrun eq_refl) as [Hr' Ha].
      cbn [actions] in Ha. right. split; [by left|]. split; [|done]. left. congruence.
Qed.

(** With the datagram server still running when the [select] takes a
    case, the case is the stream server's. *)
Lemma run_only_stream_ready (ls : list Label) : ∀ (s s' : State) (r : option error),
  run s ls = Some s' → result s = None → quic s = Running →
  ¬ In Datagram (terminated_before_select ls) → result s' = Some r →
  In RecvH ls ∧ actions s' = (actions s ++ QuicServerClose :: deferred)%list.
Proof.
  induction ls as [|l ls IH]; intros s s' r Hrun Hs Hq Hno Hr; cbn [run] in Hrun.
  - inversion Hrun; subst. congruence.
  - destruct (step s l) as [s1|] eqn:Hstep; [|done].
    unfold step in Hstep. rewrite Hs in Hstep. destruct l as [e|e| |].
    + destruct (http s); try done. inversion Hstep; subst; clear Hstep.
      cbn [terminated_before_select] in Hno.
      destruct (IH _ s' r Hrun eq_refl Hq ltac:(intros ?; apply Hno; by right) Hr).
      split; [by right | done].
    + exfalso. apply Hno. by left.
    + destruct (http s) as [|e|]; try done. inversion Hstep; subst; clear Hstep.
      destruct (run_after_return ls _ s' e Hrun eq_refl) as [_ Ha].
      split; [by left | done].
    + by rewrite Hq in Hstep.
Qed.

(** With the stream server still running when the [select] takes a case,
    the case is the datagram server's. *)
Lemma run_only_datagram_ready (ls : list Label) : ∀ (s s' : State) (r : option error),
  run s ls = Some s' → result s = None → http s = Running →
  ¬ In Stream (terminated_before_select ls) → result s' = Some r →
  In RecvQ ls ∧ actions s' = (actions s ++ deferred)%list.
Proof.
  induction ls as [|l ls IH]; intros s s' r Hrun Hs Hh Hno Hr; cbn [run] in Hrun.
  - inversion Hrun; subst. congruence.
  - destruct (step s l) as [s1|] eqn:Hstep; [|done].
    unfold step in Hstep. rewrite Hs in Hstep. destruct l as [e|e| |].
    + exfalso. apply Hno. by left.
    + destruct (quic s); try done. inversion Hstep; subst; clear Hstep.
      cbn [terminated_before_select] in Hno.
      destruct (IH _ s' r Hrun eq_refl Hh ltac:(intros ?; apply Hno; by right) Hr).
      split; [by right | done].
    + by rewrite Hh in Hstep.
    + destruct (quic s) as [|e|]; try done. inversion Hstep; subst; clear Hstep.
      destruct (run_after_return ls _ s' e Hrun eq_refl) as [_ Ha].
      split; [by left | done].
Qed.

End Listener_facts.

Module ListenAndServe_facts.
Import Listener Listener_facts.

Lemma bind_started (env : Env) (addr certFile keyFile : string) (acts : list Action) :
  bind env addr certFile keyFile = (acts, inr tt) →
  acts = [UDPOpened addr; TCPOpened addr; TLSWrapped; GoHTTPServe; GoQUICServe].
Proof.
  unfold bind. intros H.
  destruct (LoadX509KeyPair env certFile keyFile); [done|].
  destruct (ResolveUDPAddr env addr); [done|].
  destruct (ListenUDP env addr); [done|].
  destruct (ResolveTCPAddr env addr); [done|].
  destruct (ListenTCP env addr); [done|]. by inversion H.
Qed.

(** C1 (as amended): once both servers are started, the listener returns
    through exactly one case of its [select]. Receiving the stream
    server's result, it closes the datagram server, runs the deferred
    closes and returns the error [Serve] of the stream server returned;
    receiving the datagram server's result, it runs the deferred closes
    alone and returns that server's error. The first case is the one
    taken when the datagram server is still running as the [select]
    fires, the second when the stream server is. *)
Theorem C1_listener_termination_asymmetric
    (env : Env) (addr certFile keyFile : string) (ls : list Label)
    (started trace : list Action) (r : option error)
    (Hbind : bind env addr certFile keyFile = (started, inr tt))
    (Hret : ListenAndServe env addr certFile keyFile ls = Some (trace, r)) :
  let stream_case :=
    In RecvH ls ∧ In (HTTPReturns r) ls
    ∧ trace = (started ++ QuicServerClose :: deferred)%list in
  let datagram_case :=
    In RecvQ ls ∧ In (QUICReturns r) ls
    ∧ trace = (started ++ deferred)%list ∧ ¬ In QuicServerClose trace in
  (stream_case ∨ datagram_case)
  ∧ (¬ In Datagram (terminated_before_select ls) → stream_case)
  ∧ (¬ In Stream (terminated_before_select ls) → datagram_case).
Proof.
  pose proof (bind_started _ _ _ _ _ Hbind) as Hst.
  unfold ListenAndServe in Hret. rewrite Hbind in Hret.
  destruct (run (serving started) ls) as [s|] eqn:Hrun; [|done].
  destruct (result s) as [r'|] eqn:Hr; [|done].
  inversion Hret; subst trace r'; clear Hret.
  assert (¬ In QuicServerClose (started ++ deferred)%list) as Hnoclose.
  { rewrite Hst. cbn. intuition discriminate. }
  pose proof (run_select ls _ s r Hrun eq_refl Hr) as Hsel.
  cbn [http quic actions serving] in Hsel.
  assert (∀ P Q : Prop, (Running = Sending r ∨ P) → Q → (P ∧ Q)) as Hpick.
  { intros P Q [Hbad | HP] HQ; [discriminate | done]. }
  cbv zeta. split; [|split].
  - destruct Hsel as [(HR & Hsrc & Ha) | (HR & Hsrc & Ha)]; [left | right].
    + split; [done|]. by apply Hpick.
    + split; [done|]. apply Hpick; [done|]. split; [done|]. by rewrite Ha.
  - intros Hno.
    destruct (run_only_stream_ready ls _ s r Hrun eq_refl eq_refl Hno Hr) as [HR Ha].
    cbn [actions serving] in Ha.
    destruct Hsel as [(_ & Hsrc & _) | (_ & _ & Ha')].
    + split; [done|]. by apply Hpick.
    + exfalso. rewrite Ha in Ha'. apply app_inv_head in Ha'. discriminate.
  - intros Hno.
    destruct (run_only_datagram_ready ls _ s r Hrun eq_refl eq_refl Hno Hr) as [HR Ha].
    cbn [actions serving] in Ha.
    destruct Hsel as [(_ & _ & Ha') | (_ & Hsrc & _)].
    + exfalso. rewrite Ha in Ha'. apply app_inv_head in Ha'. discriminate.
    + split; [done|]. apply Hpick; [done|]. split; [done|]. by rewrite Ha.
Qed.

Lemma C1_witness :
  let ls := [HTTPReturns None; RecvH] in
  let started := [UDPOpened "localhost:6121"; TCPOpened "localhost:6121";
                  TLSWrapped; GoHTTPServe; GoQUICServe] in
  let trace := (started ++ QuicServerClose :: deferred)%list in
  let stream_case :=
    In RecvH ls ∧ In (HTTPReturns None) ls
    ∧ trace = (started ++ QuicServerClose :: deferred)%list in
  let datagram_case :=
    In RecvQ ls ∧ In (QUICReturns None) ls
    ∧ trace = (started ++ deferred)%list ∧ ¬ In QuicServerClose trace in
  (stream_case ∨ datagram_case)
  ∧ (¬ In Datagram (terminated_before_select ls) → stream_case)
  ∧ (¬ In Stream (terminated_before_select ls) → datagram_case).
Proof.
  exact (C1_listener_termination_asymmetric allOk "localhost:6121" "cert.pem" "key.pem"
           [HTTPReturns None; RecvH] _ _ None eq_refl eq_refl).
Defined.

(** C1 as the specification words it fails: the stream server's [Serve] returns
    first, the datagram server's returns before the [select] has fired,
    and the [select] takes the datagram case; the listener then returns
    the datagram server's error and does not close the datagram server. *)
Lemma C1_counterexample :
  ¬ (∀ (env : Env) (addr certFile keyFile : string) (ls : list Label)
       (trace : list Action) (r e : option error),
       ListenAndServe env addr certFile keyFile ls = Some (trace, r) →
       first_terminated ls = Some (Stream, e) →
       r = e ∧ In QuicServerClose trace).
Proof.
  intros H.
  destruct (H allOk "localhost:6121" "cert.pem" "key.pem"
              [HTTPReturns (Some "accept tcp: too many open files");
               QUICReturns (Some "read udp: use of closed network connection"); RecvQ]
              _ _ _ eq_refl eq_refl) as [Heq _].
  discriminate Heq.
Qed.

Example both_ready_either_case :
  ListenAndServe allOk "a:1" "c" "k" [HTTPReturns (Some "h"); QUICReturns (Some "q"); RecvH]
  = Some ([UDPOpened "a:1"; TCPOpened "a:1"; TLSWrapped; GoHTTPServe; GoQUICServe;
           QuicServerClose; Close_tlsConn; Close_tcpConn; Close_udpConn], Some "h")
  ∧ ListenAndServe allOk "a:1" "c" "k" [HTTPReturns (Some "h"); QUICReturns (Some "q"); RecvQ]
    = Some ([UDPOpened "a:1"; TCPOpened "a:1"; TLSWrapped; GoHTTPServe; GoQUICServe;
             Close_tlsConn; Close_tcpConn; Close_udpConn], Some "q").
Proof. split; reflexivity. Qed.

End ListenAndServe_facts.

(** ** Start-up of the server *)

Module Server_facts.
Import Congestion Server.

Lemma congestionMap_lookup (name : string) :
  congestionMap !! name
  = if decide (name = "newreno") then Some NewRenoControlType
    else if decide (name = "cubic") then Some CubicControlType
    else None.
Proof.
  unfold congestionMap. repeat case_decide; subst;
    rewrite ?lookup_insert_eq, ?lookup_insert_ne, ?lookup_singleton_eq,
      ?lookup_singleton_ne by done; done.
Qed.

Lemma hystartMap_lookup (name : string) :
  hystartMap !! name
  = if decide (name = "standard") then Some HystartTypeStandard
    else if decide (name = "plusplus") then Some HystartTypePlusPlus
    else if decide (name = "none") then Some HystartTypeNone
    else None.
Proof.
  unfold hystartMap. repeat case_decide; subst;
    rewrite ?lookup_insert_eq, ?lookup_insert_ne, ?lookup_singleton_eq,
      ?lookup_singleton_ne by done; done.
Qed.

Lemma IsNotExist_true r : IsNotExist r = true ↔ r = StatNotExist.
Proof. destruct r; cbn; split; congruence. Qed.

Lemma main_startup_present (fl : Flags) (Stat : string → StatResult) :
  credentials_present fl Stat →
  main_startup fl Stat
  = match congestionMap !! congestionAlgo fl with
    | None =>
        ((prologue fl ++ [Log (Errorf ("congestion control algo " ++ congestionAlgo fl
                                          ++ " is not found" ++ Handler.nl))])%list, Exit 1)
    | Some c =>
        match hystartMap !! hystart fl with
        | None =>
            ((prologue fl ++ [Log (Errorf ("hystart algo " ++ hystart fl
                                              ++ " is not found" ++ Handler.nl))])%list, Exit 1)
        | Some h =>
            (prologue fl,
             Launch (match bs fl with [] => ["localhost:6121"] | _ => bs fl end)
                    (mkConfig (mkOptions c h) (enableQlog fl)))
        end
    end.
Proof.
  intros (Hc & Hcs & Hk & Hks). unfold main_startup.
  apply String.eqb_neq in Hc, Hk. rewrite Hc, Hk.
  destruct (IsNotExist (Stat (certFile fl))) eqn:E1;
    [apply IsNotExist_true in E1; contradiction|].
  destruct (IsNotExist (Stat (keyFile fl))) eqn:E2;
    [apply IsNotExist_true in E2; contradiction|].
  reflexivity.
Qed.

Lemma main_startup_fatal (fl : Flags) (Stat : string → StatResult) :
  certFile fl = "" ∨ Stat (certFile fl) = StatNotExist
  ∨ keyFile fl = "" ∨ Stat (keyFile fl) = StatNotExist
  ∨ congestionMap !! congestionAlgo fl = None
  ∨ hystartMap !! hystart fl = None →
  ∃ msg, main_startup fl Stat = ((prologue fl ++ [Log (Errorf msg)])%list, Exit 1).
Proof.
  intros Hfatal. unfold main_startup. cbv zeta. fold (prologue fl).
  destruct (String.eqb (certFile fl) "") eqn:Ec; [by eexists|].
  destruct (IsNotExist (Stat (certFile fl))) eqn:Ecs; [by eexists|].
  destruct (String.eqb (keyFile fl) "") eqn:Ek; [by eexists|].
  destruct (IsNotExist (Stat (keyFile fl))) eqn:Eks; [by eexists|].
  destruct (congestionMap !! congestionAlgo fl) eqn:Ecm; [|by eexists].
  destruct (hystartMap !! hystart fl) eqn:Ehm; [|by eexists].
  exfalso. apply String.eqb_neq in Ec, Ek.
  destruct Hfatal as [H | [H | [H | [H | [H | H]]]]]; try done.
  - rewrite H in Ecs. discriminate.
  - rewrite H in Eks. discriminate.
Qed.

Lemma main_startup_exit (fl : Flags) (Stat : string → StatResult)
    (evs : list Event) (code : Z) :
  main_startup fl Stat = (evs, Exit code) →
  code = 1
  ∧ (certFile fl = "" ∨ Stat (certFile fl) = StatNotExist
     ∨ keyFile fl = "" ∨ Stat (keyFile fl) = StatNotExist
     ∨ congestionMap !! congestionAlgo fl = None
     ∨ hystartMap !! hystart fl = None).
Proof.
  unfold main_startup. cbv zeta.
  destruct (String.eqb (certFile fl) "") eqn:Ec.
  { apply String.eqb_eq in Ec. intros H; inversion H. auto. }
  destruct (IsNotExist (Stat (certFile fl))) eqn:Ecs.
  { apply IsNotExist_true in Ecs. intros H; inversion H. auto. }
  destruct (String.eqb (keyFile fl) "") eqn:Ek.
  { apply String.eqb_eq in Ek. intros H; inversion H. auto. }
  destruct (IsNotExist (Stat (keyFile fl))) eqn:Eks.
  { apply IsNotExist_true in Eks. intros H; inversion H. auto 6. }
  destruct (congestionMap !! congestionAlgo fl) eqn:Ecm.
  2:{ intros H; inversion H. auto 7. }
  destruct (hystartMap !! hystart fl) eqn:Ehm.
  2:{ intros H; inversion H. auto 8. }
  intros H; inversion H.
Qed.

Lemma ListenAndServe_bad_key_pair (env : Listener.Env) (addr certFile keyFile : string)
    (e : Listener.error) (ls : list Listener.Label) :
  Listener.LoadX509KeyPair env certFile keyFile = Some e →
  Listener.ListenAndServe env addr certFile keyFile ls = Some ([], Some e).
Proof.
  intros H. unfold Listener.ListenAndServe, Listener.bind. by rewrite H.
Qed.

(** C2 (as amended): a missing certificate or key argument, a certificate
    or key file that does not exist, an unknown congestion-algorithm name
    and an unknown hystart name each end the start-up with exit status 1,
    after the logger set-up and one error message and before any listener
    is launched; these are the only exits of the start-up. A key pair that
    is present but does not load is met later, by each listener, which
    returns the load error before it opens a socket. *)
Theorem C2_fatal_configuration_errors :
  (∀ (fl : Flags) (Stat : string → StatResult),
      certFile fl = "" ∨ Stat (certFile fl) = StatNotExist
      ∨ keyFile fl = "" ∨ Stat (keyFile fl) = StatNotExist
      ∨ congestionMap !! congestionAlgo fl = None
      ∨ hystartMap !! hystart fl = None →
      ∃ msg, main_startup fl Stat
             = ((prologue fl ++ [Log (Errorf msg)])%list, Exit 1))
  ∧ (∀ name : string, name ≠ "newreno" → name ≠ "cubic" →
        congestionMap !! name = None)
  ∧ (∀ name : string, name ≠ "standard" → name ≠ "plusplus" → name ≠ "none" →
        hystartMap !! name = None)
  ∧ (∀ (fl : Flags) (Stat : string → StatResult) (evs : list Event) (code : Z),
        main_startup fl Stat = (evs, Exit code) →
        code = 1
        ∧ (certFile fl = "" ∨ Stat (certFile fl) = StatNotExist
           ∨ keyFile fl = "" ∨ Stat (keyFile fl) = StatNotExist
           ∨ congestionMap !! congestionAlgo fl = None
           ∨ hystartMap !! hystart fl = None))
  ∧ (∀ (env : Listener.Env) (addr certFile keyFile : string) (e : Listener.error)
       (ls : list Listener.Label),
        Listener.LoadX509KeyPair env certFile keyFile = Some e →
        Listener.ListenAndServe env addr certFile keyFile ls = Some ([], Some e))
  ∧ main_startup defaultFlags (λ _, StatOk)
    = ([SetLogLevelInfo; SetLogTimeFormat "";
        Log (Errorf ("cert argument is required" ++ Handler.nl))], Exit 1)
  ∧ main_startup (mkFlags false [] "" false "cert.pem" "key.pem" "bbr" "standard")
                 (λ _, StatOk)
    = ([SetLogLevelInfo; SetLogTimeFormat "";
        Log (Errorf ("congestion control algo bbr is not found" ++ Handler.nl))], Exit 1)
  ∧ main_startup (mkFlags false [] "" false "cert.pem" "key.pem" "cubic" "hystart++")
                 (λ _, StatOk)
    = ([SetLogLevelInfo; SetLogTimeFormat "";
        Log (Errorf ("hystart algo hystart++ is not found" ++ Handler.nl))], Exit 1)
  ∧ main_startup (mkFlags true ["[::]:443"] "" false "cert.pem" "key.pem" "cubic" "none")
                 (λ name, if String.eqb name "key.pem" then StatNotExist else StatOk)
    = ([SetLogLevelDebug; SetLogTimeFormat "";
        Log (Errorf ("key file key.pem does not exist" ++ Handler.nl))], Exit 1).
Proof.
  split; [exact main_startup_fatal|].
  split. { intros name H1 H2. rewrite congestionMap_lookup. by repeat case_decide. }
  split. { intros name H1 H2 H3. rewrite hystartMap_lookup. by repeat case_decide. }
  split; [exact main_startup_exit|].
  split; [exact ListenAndServe_bad_key_pair|].
  repeat split; vm_compute; reflexivity.
Qed.

(** C2 as the specification words it fails for a certificate that is present but
    does not load: the start-up does not exit, it launches the listeners. *)
Lemma C2_counterexample :
  ¬ (∀ (fl : Flags) (Stat : string → StatResult) (env : Listener.Env),
       certFile fl ≠ "" → Stat (certFile fl) = StatOk →
       Listener.LoadX509KeyPair env (certFile fl) (keyFile fl) ≠ None →
       ∃ evs code, main_startup fl Stat = (evs, Exit code) ∧ code ≠ 0).
Proof.
  intros H.
  destruct (H (mkFlags false [] "" false "cert.pem" "key.pem" "newreno" "standard")
              (λ _, StatOk)
              (Listener.mkEnv
                 (λ _ _, Some "tls: failed to find any PEM data in certificate input")
                 (λ _, None) (λ _, None) (λ _, None) (λ _, None)))
    as (evs & code & Hexit & _); [done..|].
  vm_compute in Hexit. discriminate Hexit.
Qed.

Example startup_with_unloadable_certificate :
  main_startup (mkFlags false [] "" false "cert.pem" "key.pem" "newreno" "standard")
               (λ _, StatOk)
  = ([SetLogLevelInfo; SetLogTimeFormat ""],
     Launch ["localhost:6121"]
            (mkConfig (mkOptions NewRenoControlType HystartTypeStandard) false)).
Proof. vm_compute. reflexivity. Qed.

(** C8: the factory returns a sender for every control type and has no
    error result; for every type other than NewReno, the BBR constant and
    values outside the enumeration included, it is the cubic-family sender
    with the Reno flag cleared. Unknown names are rejected where the name
    is looked up: the table of names has the two entries [newreno] and
    [cubic], not [bbr], and a name outside it ends the start-up with
    exit status 1. *)
Theorem C8_factory_total_defaults_to_cubic
    {RTTStats ConnectionTracer Sender : Type}
    (NewCubicSender :
       Clock → RTTStats → Z → bool → HystartControlType → ConnectionTracer → Sender)
    (rtt : RTTStats) (size : Z) (t : CongestionControlType) (h : HystartControlType)
    (tracer : ConnectionTracer) (Ht : t ≠ NewRenoControlType) :
  NewCongestionHandler NewCubicSender rtt size (mkOptions t h) tracer
  = ([Infof ("Congestion Control: Cubic with hystart: " ++ hystartTypeToString h)],
     NewCubicSender DefaultClock rtt size false h tracer)
  ∧ (∀ options : CongestionOptions, ∃ msg reno,
        NewCongestionHandler NewCubicSender rtt size options tracer
        = ([Infof msg],
           NewCubicSender DefaultClock rtt size reno (Hystart options) tracer))
  ∧ congestionMap !! "bbr" = None
  ∧ (∀ (name : string) (c : CongestionControlType),
        congestionMap !! name = Some c →
        (name = "newreno" ∧ c = NewRenoControlType)
        ∨ (name = "cubic" ∧ c = CubicControlType))
  ∧ (∀ (fl : Flags) (Stat : string → StatResult),
        congestionMap !! congestionAlgo fl = None →
        ∃ msg, main_startup fl Stat
               = ((prologue fl ++ [Log (Errorf msg)])%list, Exit 1)).
Proof.
  split; [by apply Congestion_facts.NewCongestionHandler_default|].
  split.
  { intros [c h']. unfold NewCongestionHandler. cbn [ControlType Hystart].
    destruct (c =? NewRenoControlType); by do 2 eexists. }
  split; [by rewrite congestionMap_lookup|].
  split.
  { intros name c. rewrite congestionMap_lookup.
    repeat case_decide; intros Hc; inversion Hc; subst; auto. }
  intros fl Stat Hnone. apply main_startup_fatal. auto 6.
Qed.

Lemma C8_witness :
  NewCongestionHandler (λ _ (_ : unit) size reno hy (_ : unit), (size, reno, hy))
                       tt 1200 (mkOptions BbrControlType HystartTypePlusPlus) tt
  = ([Infof ("Congestion Control: Cubic with hystart: "
               ++ hystartTypeToString HystartTypePlusPlus)],
     (1200, false, HystartTypePlusPlus))
  ∧ (∀ options : CongestionOptions, ∃ msg reno,
        NewCongestionHandler (λ _ (_ : unit) size reno hy (_ : unit), (size, reno, hy))
                             tt 1200 options tt
        = ([Infof msg], (1200, reno, Hystart options)))
  ∧ congestionMap !! "bbr" = None
  ∧ (∀ (name : string) (c : CongestionControlType),
        congestionMap !! name = Some c →
        (name = "newreno" ∧ c = NewRenoControlType)
        ∨ (name = "cubic" ∧ c = CubicControlType))
  ∧ (∀ (fl : Flags) (Stat : string → StatResult),
        congestionMap !! congestionAlgo fl = None →
        ∃ msg, main_startup fl Stat
               = ((prologue fl ++ [Log (Errorf msg)])%list, Exit 1)).
Proof.
  apply (C8_factory_total_defaults_to_cubic
           (λ _ (_ : unit) size reno hy (_ : unit), (size, reno, hy))
           tt 1200 BbrControlType HystartTypePlusPlus tt).
  discriminate.
Defined.

End Server_facts.

(** ** The launch loop *)

Module Orchestrator_facts.
Import Congestion Server.

Lemma run_app (ls1 ls2 : list Label) : ∀ o : Orch,
  run o (ls1 ++ ls2) = run o ls1 ≫= (λ o', run o' ls2).
Proof.
  induction ls1 as [|l ls1 IH]; intros o; [reflexivity|].
  cbn [app run]. destruct (step o l); [apply IH | reflexivity].
Qed.

Lemma pending_total_cons (g : Goroutine) (l : list Goroutine) :
  pending_total (g :: l) = pending g + pending_total l.
Proof. reflexivity. Qed.

Lemma pending_range (g : Goroutine) : 0 <= pending g <= 1.
Proof. unfold pending. destruct (gpc g); lia. Qed.

Lemma pending_total_app (l1 l2 : list Goroutine) :
  pending_total (l1 ++ l2) = pending_total l1 + pending_total l2.
Proof.
  induction l1 as [|g l1 IH]; [reflexivity|].
  rewrite <- app_comm_cons, !pending_total_cons. lia.
Qed.

Lemma pending_total_insert (l : list Goroutine) : ∀ (i : nat) (g g' : Goroutine),
  l !! i = Some g →
  pending_total (<[i := g']> l) = pending_total l - pending g + pending g'.
Proof.
  induction l as [|x l IH]; intros [|i] g g' Hi; try done.
  - inversion Hi; subst. change (<[0%nat := g']> (g :: l)) with (g' :: l).
    rewrite !pending_total_cons. lia.
  - change (<[S i := g']> (x :: l)) with (x :: <[i := g']> l).
    rewrite !pending_total_cons, (IH i g g' Hi). lia.
Qed.

Lemma pending_total_nonneg (l : list Goroutine) : 0 <= pending_total l.
Proof.
  induction l as [|g l IH]; [done|].
  rewrite pending_total_cons. pose proof (pending_range g). lia.
Qed.

Lemma pending_total_zero (l : list Goroutine) :
  pending_total l = 0 → Forall (λ g, gpc g = GDone) l.
Proof.
  induction l as [|g l IH]; [constructor|].
  rewrite pending_total_cons. intros H.
  pose proof (pending_total_nonneg l). pose proof (pending_range g).
  constructor; [|apply IH; lia].
  assert (pending g = 0) as Hg by lia. unfold pending in Hg.
  by destruct (gpc g).
Qed.

Lemma fmap_bCap_insert (l : list Goroutine) (i : nat) (g g' : Goroutine) :
  l !! i = Some g → bCap g' = bCap g → bCap <$> <[i := g']> l = bCap <$> l.
Proof.
  intros Hi Hb. rewrite list_fmap_insert, Hb.
  apply list_insert_id. by rewrite list_lookup_fmap, Hi.
Qed.

Lemma launch_inv (binds : list string) : orch_inv binds (launch binds).
Proof.
  unfold orch_inv, launch. cbn [gs rest wg pc fmap list_fmap app].
  split_and!; [done | cbn; lia | done | done].
Qed.

Lemma setG_inv (binds : list string) (o : Orch) (i : nat) (g g' : Goroutine)
    (wg' : Z) (out' : list Event) :
  orch_inv binds o → pc o ≠ Exited → gs o !! i = Some g → bCap g' = bCap g →
  wg' = wg o - pending g + pending g' →
  orch_inv binds (setG o i g' wg' out').
Proof.
  intros (Hb & Hw & Hr & _) Hpc Hg Hcap ->. unfold orch_inv, setG. cbn [gs rest wg pc].
  rewrite (fmap_bCap_insert _ _ g g' Hg Hcap).
  rewrite (pending_total_insert _ _ g g' Hg).
  split_and!; [done | lia | done | done].
Qed.

Lemma step_inv (binds : list string) (o o' : Orch) (l : Label) :
  orch_inv binds o → step o l = Some o' → orch_inv binds o'.
Proof.
  intros Hinv Hstep. pose proof Hinv as (Hb & Hw & Hr & _).
  unfold step in Hstep. destruct l as [|i ret].
  - destruct (pc o) eqn:Hpc; [| |done].
    + destruct (rest o) as [|x xs] eqn:Hrest; inversion Hstep; subst; clear Hstep;
        unfold orch_inv; cbn [gs rest wg pc].
      * split_and!; [done | by rewrite Hw | done | done].
      * rewrite fmap_app, pending_total_app. cbn [fmap list_fmap bCap].
        rewrite <- app_assoc. split_and!; [done | | done | done].
        rewrite Hw. cbn [length]. rewrite pending_total_cons.
        unfold pending. cbn [gpc pending_total foldr]. lia.
    + destruct (wg o =? 0) eqn:Ewg; inversion Hstep; subst; clear Hstep.
      unfold orch_inv; cbn [gs rest wg pc]. split_and!; [done | done | | lia].
      intros _. by apply Hr.
  - assert (pc o ≠ Exited) as Hne by (intros E; by rewrite E in Hstep).
    assert (match gs o !! i with
            | None => None
            | Some g =>
                match gpc g with
                | GStart =>
                    Some (setG o i (mkGoroutine (bCap g) GLogged) (wg o)
                            (out o ++ [Log (Infof ("Start server on " ++ bCap g ++ Handler.nl))]))
                | GLogged =>
                    Some (setG o i (mkGoroutine (bCap g) (GCalling (b o))) (wg o) (out o))
                | GCalling _ =>
                    Some (setG o i (mkGoroutine (bCap g) (GReturned ret)) (wg o) (out o))
                | GReturned (Some e) =>
                    Some (setG o i (mkGoroutine (bCap g) GDone) (wg o - 1)
                            (out o ++ [Println e]))
                | GReturned None =>
                    Some (setG o i (mkGoroutine (bCap g) GDone) (wg o - 1) (out o))
                | GDone => None
                end
            end = Some o') as Hgo by (by destruct (pc o)).
    clear Hstep Hb Hw Hr. destruct (gs o !! i) as [g|] eqn:Hg; [|done].
    destruct (gpc g) as [| | a | [e|] |] eqn:Hgp; inversion Hgo; subst; clear Hgo;
      apply (setG_inv binds o i g); try done;
      unfold pending; rewrite Hgp; cbn [gpc]; lia.
Qed.

Lemma run_inv (binds : list string) (ls : list Label) : ∀ o o' : Orch,
  orch_inv binds o → run o ls = Some o' → orch_inv binds o'.
Proof.
  induction ls as [|l ls IH]; intros o o' Hinv Hrun; cbn [run] in Hrun.
  - by inversion Hrun; subst.
  - destruct (step o l) as [o1|] eqn:Hstep; [|done].
    apply (IH o1); [by apply (step_inv binds o o1 l) | done].
Qed.

(** C10, evaluated: with two bind targets and the loop through its second
    turn before the first goroutine evaluates the argument of its call,
    the listener launched for the first target enters [ListenAndServe]
    with the address of the second; its start message still names its own
    target. Hence not every listener is given its own address. *)
Theorem C10_listener_entered_with_sibling_address :
  (∃ o : Orch,
      run (launch ["a:1"; "b:2"])
          [MainStep; MainStep; GoStep 0 None; GoStep 0 None; GoStep 1 None; GoStep 1 None]
      = Some o
      ∧ called o = [("a:1", "b:2"); ("b:2", "b:2")]
      ∧ out o = [Log (Infof ("Start server on a:1" ++ Handler.nl));
                 Log (Infof ("Start server on b:2" ++ Handler.nl))])
  ∧ ¬ (∀ (binds : list string) (ls : list Label) (o : Orch) (own addr : string),
         run (launch binds) ls = Some o → In (own, addr) (called o) → addr = own).
Proof.
  split.
  - eexists. split; [vm_compute; reflexivity|]. split; reflexivity.
  - intros H.
    specialize (H ["a:1"; "b:2"] [MainStep; MainStep; GoStep 0 None; GoStep 0 None]
                  _ "a:1" "b:2" eq_refl).
    discriminate H. vm_compute. by left.
Qed.

Example every_listener_own_address_when_scheduled_early :
  called <$> run (launch ["a:1"; "b:2"])
                 [MainStep; GoStep 0 None; GoStep 0 None;
                  MainStep; GoStep 1 None; GoStep 1 None]
  = Some [("a:1", "a:1"); ("b:2", "b:2")].
Proof. vm_compute. reflexivity. Qed.

(** The launch loop spawns one goroutine per bind target, in order, and
    the process leaves [wg.Wait()] only when every one of them has
    returned from its listener and called [wg.Done()]. *)
Theorem orchestrator_waits_for_all (binds : list string) (ls : list Label) (o : Orch) :
  run (launch binds) ls = Some o → pc o = Exited →
  bCap <$> gs o = binds ∧ Forall (λ g, gpc g = GDone) (gs o).
Proof.
  intros Hrun Hpc.
  pose proof (run_inv binds ls _ o (launch_inv binds) Hrun) as (Hb & Hw & Hr & Hx).
  assert (rest o = []) as Hrest by (apply Hr; by rewrite Hpc).
  rewrite Hrest, app_nil_r in Hb. split; [done|].
  apply pending_total_zero. specialize (Hx Hpc).
  rewrite Hrest in Hw. cbn [length] in Hw. lia.
Qed.

Lemma orchestrator_waits_witness :
  bCap <$> [mkGoroutine "a:1" GDone] = ["a:1"]
  ∧ Forall (λ g, gpc g = GDone) [mkGoroutine "a:1" GDone].
Proof.
  apply (orchestrator_waits_for_all ["a:1"]
           [MainStep; GoStep 0 None; GoStep 0 None; GoStep 0 (Some "bind: address in use");
            GoStep 0 None; MainStep; MainStep]
           (mkOrch [] "a:1" Exited [mkGoroutine "a:1" GDone] 0
              [Log (Infof ("Start server on a:1" ++ Handler.nl));
               Println "bind: address in use"]));
    vm_compute; reflexivity.
Defined.

(** A goroutine's step, and a step of [main], leaves every other
    goroutine as it is: no listener is cancelled by another's failure; and
    the step out of a failed listener prints its error. *)
Theorem orchestrator_isolates_and_reports (o o' : Orch) (l : Label) :
  step o l = Some o' →
  (∀ (j : nat) (g : Goroutine),
      gs o !! j = Some g → (∀ ret, l ≠ GoStep j ret) → gs o' !! j = Some g)
  ∧ (∀ (i : nat) (ret : option error) (g : Goroutine) (e : error),
        l = GoStep i ret → gs o !! i = Some g → gpc g = GReturned (Some e) →
        out o' = (out o ++ [Println e])%list).
Proof.
  intros Hstep. split.
  - intros j g Hj Hl. unfold step in Hstep. destruct l as [|i ret].
    + destruct (pc o); [| |done].
      * destruct (rest o); inversion Hstep; subst; cbn [gs]; [done|].
        by apply lookup_app_l_Some.
      * destruct (wg o =? 0); by inversion Hstep; subst.
    + assert (i ≠ j) as Hij by (intros ->; by apply (Hl ret)).
      assert (∃ g' w' out', o' = setG o i g' w' out') as (g' & w' & out' & ->).
      { destruct (pc o); [| |done];
          (destruct (gs o !! i) as [gi|]; [|done]);
          destruct (gpc gi) as [| | | [e|] |]; inversion Hstep; by eauto. }
      unfold setG. cbn [gs]. by rewrite list_lookup_insert_ne.
  - intros i ret g e -> Hg Hgp. unfold step in Hstep.
    rewrite Hg, Hgp in Hstep. destruct (pc o); by inversion Hstep.
Qed.

Lemma orchestrator_isolates_witness :
  (∀ (j : nat) (g : Goroutine),
      [mkGoroutine "a:1" (GReturned (Some "x")); mkGoroutine "b:2" (GCalling "b:2")] !! j
      = Some g →
      (∀ ret, GoStep 0 None ≠ GoStep j ret) →
      [mkGoroutine "a:1" GDone; mkGoroutine "b:2" (GCalling "b:2")] !! j = Some g)
  ∧ (∀ (i : nat) (ret : option error) (g : Goroutine) (e : error),
        GoStep 0 None = GoStep i ret →
        [mkGoroutine "a:1" (GReturned (Some "x")); mkGoroutine "b:2" (GCalling "b:2")] !! i
        = Some g →
        gpc g = GReturned (Some e) →
        [Println "x"] = ([] ++ [Println e])%list).
Proof.
  exact (orchestrator_isolates_and_reports
           (mkOrch [] "b:2" Waiting
              [mkGoroutine "a:1" (GReturned (Some "x")); mkGoroutine "b:2" (GCalling "b:2")]
              2 [])
           (mkOrch [] "b:2" Waiting
              [mkGoroutine "a:1" GDone; mkGoroutine "b:2" (GCalling "b:2")] 1 [Println "x"])
           (GoStep 0 None) eq_refl).
Defined.

End Orchestrator_facts.

(** ** The [binds] flag *)

Module Binds_facts.
Import Binds Congestion Server.

Lemma Split_byte_nonempty (s : string) (sep : ascii) : Split_byte s sep ≠ [].
Proof.
  destruct s as [|c s]; cbn [Split_byte]; [done|].
  destruct (Ascii.eqb c sep); [done|]. by destruct (Split_byte s sep).
Qed.

Lemma Join_cons_char (c : ascii) (h : string) (t : list string) (sep : string) :
  Join (String c h :: t) sep = String c (Join (h :: t) sep).
Proof. by destruct t. Qed.

Lemma Join_cons (a : string) (l : list string) (sep : string) :
  l ≠ [] → Join (a :: l) sep = a ++ sep ++ Join l sep.
Proof. by destruct l. Qed.

Lemma Split_byte_length (s : string) (sep : ascii) :
  length (Split_byte s sep) = S (count_byte sep s).
Proof.
  induction s as [|c s IH]; [reflexivity|]. cbn [Split_byte count_byte].
  destruct (Ascii.eqb c sep); cbn [length]; [by rewrite IH|].
  destruct (Split_byte s sep); cbn [length] in *; lia.
Qed.

Lemma Split_byte_free (s : string) (sep : ascii) :
  free_of sep s → Split_byte s sep = [s].
Proof.
  induction s as [|c s IH]; [done|]. intros [Hc Hs].
  cbn [Split_byte]. apply Ascii.eqb_neq in Hc. rewrite Hc. by rewrite IH.
Qed.

Lemma Split_byte_app (a rest : string) (sep : ascii) :
  free_of sep a →
  Split_byte (a ++ String sep rest) sep = a :: Split_byte rest sep.
Proof.
  induction a as [|c a IH]; intros Ha.
  - change ("" ++ String sep rest) with (String sep rest).
    cbn [Split_byte]. by rewrite Ascii.eqb_refl.
  - destruct Ha as [Hc Ha].
    change (String c a ++ String sep rest) with (String c (a ++ String sep rest)).
    cbn [Split_byte].
    apply Ascii.eqb_neq in Hc. rewrite Hc. by rewrite IH.
Qed.

Lemma Split_byte_pieces_free (s : string) (sep : ascii) :
  Forall (free_of sep) (Split_byte s sep).
Proof.
  induction s as [|c s IH]; [by repeat constructor|]. cbn [Split_byte].
  destruct (Ascii.eqb c sep) eqn:E; [by constructor|].
  apply Ascii.eqb_neq in E.
  destruct (Split_byte s sep) as [|h t]; [by repeat constructor|].
  inversion IH; subst. constructor; [|done].
  by split.
Qed.

(** Joining the pieces of any string with commas gives the string back:
    [b.Set(v)] followed by [b.String()] returns [v]. *)
Theorem binds_String_after_Set (b : list string) (v : string) :
  binds_String (binds_Set b v) = v.
Proof.
  unfold binds_String, binds_Set. induction v as [|c v IH]; [reflexivity|].
  cbn [Split_byte]. destruct (Ascii.eqb c ",") eqn:E.
  - apply Ascii.eqb_eq in E. subst c.
    rewrite Join_cons by apply Split_byte_nonempty. by rewrite IH.
  - pose proof (Split_byte_nonempty v ",") as Hne.
    destruct (Split_byte v ",") as [|h t]; [done|].
    by rewrite Join_cons_char, IH.
Qed.

(** [Set] on the [String] form of a list gives the list back when the
    list is not empty and no element has a comma. *)
Theorem binds_Set_after_String (b0 b : list string) :
  b ≠ [] → Forall (free_of ",") b → binds_Set b0 (binds_String b) = b.
Proof.
  unfold binds_String, binds_Set. intros Hne Hfree.
  induction Hfree as [|a l Ha Hl IH]; [done|].
  destruct l as [|a' l'].
  - cbn [Join]. by apply Split_byte_free.
  - rewrite Join_cons by done.
    change ("," ++ Join (a' :: l') ",") with (String "," (Join (a' :: l') ",")).
    rewrite Split_byte_app by done. by rewrite IH.
Qed.

Lemma binds_Set_after_String_witness :
  binds_Set [] (binds_String ["localhost:6121"; "[::1]:443"])
  = ["localhost:6121"; "[::1]:443"].
Proof.
  apply (binds_Set_after_String [] ["localhost:6121"; "[::1]:443"]); [done|].
  repeat constructor; cbn; repeat split; discriminate.
Defined.

Example binds_String_empty_does_not_round_trip :
  binds_Set [] (binds_String []) = [""].
Proof. reflexivity. Qed.

Lemma bind_flag_last (vs : list string) (v : string) :
  bind_flag (vs ++ [v]) = Split_byte v ",".
Proof. unfold bind_flag. by rewrite foldl_app. Qed.

(** The value of the bind flag is the comma-separated list of its last
    occurrence, whose pieces hold no comma and number one more than its
    commas; it is empty only when the flag does not occur. So [main]
    falls back to ["localhost:6121"] exactly when there is no bind flag,
    and an empty flag value launches one listener with the empty address. *)
Theorem bind_flag_default_only_when_absent :
  (∀ (vs : list string) (v : string),
      bind_flag (vs ++ [v]) = Split_byte v ","
      ∧ length (bind_flag (vs ++ [v])) = S (count_byte "," v)
      ∧ Forall (free_of ",") (bind_flag (vs ++ [v])))
  ∧ (∀ vs : list string, bind_flag vs = [] ↔ vs = [])
  ∧ (∀ (fl : Flags) (Stat : string → StatResult) (evs : list Event)
       (launched : list string) (conf : Config),
        main_startup fl Stat = (evs, Launch launched conf) →
        launched = (if decide (bs fl = []) then ["localhost:6121"] else bs fl)
        ∧ launched ≠ [])
  ∧ bind_flag [""] = [""].
Proof.
  split; [|split; [|split]].
  - intros vs v. rewrite bind_flag_last.
    split; [done|]. split; [apply Split_byte_length | apply Split_byte_pieces_free].
  - intros vs. split; [|by intros ->].
    destruct vs as [|v vs _] using rev_ind; [done|].
    rewrite bind_flag_last. intros H. by apply Split_byte_nonempty in H.
  - intros fl Stat evs launched conf H. unfold main_startup in H. cbv zeta in H.
    destruct (String.eqb (certFile fl) ""); [by inversion H|].
    destruct (IsNotExist (Stat (certFile fl))); [by inversion H|].
    destruct (String.eqb (keyFile fl) ""); [by inversion H|].
    destruct (IsNotExist (Stat (keyFile fl))); [by inversion H|].
    destruct (congestionMap !! congestionAlgo fl); [|by inversion H].
    destruct (hystartMap !! hystart fl); [|by inversion H].
    inversion H; subst. destruct (bs fl); [done|]. by rewrite decide_False.
  - reflexivity.
Qed.

End Binds_facts.

(** ** The listener's sockets and goroutines *)

Module Release_facts.
Import Listener Release Listener_facts.

Lemma bind_cases (env : Env) (addr certFile keyFile : string) :
  match first_error env addr certFile keyFile with
  | Some e =>
      ∃ acts, bind env addr certFile keyFile = (acts, inl e)
              ∧ (acts = [] ∨ acts = [UDPOpened addr; Close_udpConn])
  | None =>
      bind env addr certFile keyFile
      = ([UDPOpened addr; TCPOpened addr; TLSWrapped; GoHTTPServe; GoQUICServe], inr tt)
  end.
Proof.
  unfold first_error, bind.
  destruct (LoadX509KeyPair env certFile keyFile); [by eauto|].
  destruct (ResolveUDPAddr env addr); [by eauto|].
  destruct (ListenUDP env addr); [by eauto|].
  destruct (ResolveTCPAddr env addr); [by eauto|].
  destruct (ListenTCP env addr); by eauto.
Qed.

(** When a set-up call fails, [ListenAndServe] returns under every
    schedule, with the error of the first call that failed; it starts
    neither server, and the only socket it can have opened, the UDP one,
    is closed again. *)
Theorem ListenAndServe_setup_failure
    (env : Env) (addr certFile keyFile : string) (e : error) (ls : list Label) :
  first_error env addr certFile keyFile = Some e →
  ∃ trace,
    ListenAndServe env addr certFile keyFile ls = Some (trace, Some e)
    ∧ (trace = [] ∨ trace = [UDPOpened addr; Close_udpConn])
    ∧ ¬ In GoHTTPServe trace ∧ ¬ In GoQUICServe trace
    ∧ (∀ a, ¬ In (TCPOpened a) trace).
Proof.
  intros Hfe. pose proof (bind_cases env addr certFile keyFile) as Hb.
  rewrite Hfe in Hb. destruct Hb as (acts & Hb & Hshape).
  exists acts. unfold ListenAndServe. rewrite Hb. split; [done|]. split; [done|].
  destruct Hshape as [-> | ->]; cbn; intuition discriminate.
Qed.

Lemma ListenAndServe_setup_failure_witness :
  ∃ trace,
    ListenAndServe (mkEnv (λ _ _, None) (λ _, None) (λ _, None) (λ _, None)
                          (λ _, Some "listen tcp :443: bind: address already in use"))
                   ":443" "cert.pem" "key.pem" [HTTPReturns None; RecvH]
    = Some (trace, Some "listen tcp :443: bind: address already in use")
    ∧ (trace = [] ∨ trace = [UDPOpened ":443"; Close_udpConn])
    ∧ ¬ In GoHTTPServe trace ∧ ¬ In GoQUICServe trace
    ∧ (∀ a, ¬ In (TCPOpened a) trace).
Proof.
  exact (ListenAndServe_setup_failure
           (mkEnv (λ _ _, None) (λ _, None) (λ _, None) (λ _, None)
                  (λ _, Some "listen tcp :443: bind: address already in use"))
           ":443" "cert.pem" "key.pem" _ [HTTPReturns None; RecvH] eq_refl).
Defined.

(** When [ListenAndServe] returns, on whichever path, neither socket
    it opened is left open: each is closed if it was opened and was never
    touched otherwise (closing being idempotent, closes made inside the
    servers do not change this). The listener's own [Close] calls are the
    deferred ones, in the reverse of the order in which they were
    deferred, and each follows the opening of what it closes. *)
Theorem ListenAndServe_leaves_no_socket_open
    (env : Env) (addr certFile keyFile : string) (ls : list Label)
    (trace : list Action) (r : option error) :
  ListenAndServe env addr certFile keyFile ls = Some (trace, r) →
  udp (sockets_after trace) ≠ Open ∧ tcp (sockets_after trace) ≠ Open
  ∧ (udp (sockets_after trace) = Closed ↔ In (UDPOpened addr) trace)
  ∧ (tcp (sockets_after trace) = Closed ↔ In (TCPOpened addr) trace)
  ∧ (filter is_close trace = []
     ∨ filter is_close trace = [Close_udpConn]
     ∨ filter is_close trace = [Close_tlsConn; Close_tcpConn; Close_udpConn])
  ∧ (In Close_udpConn trace → In (UDPOpened addr) trace)
  ∧ (In Close_tcpConn trace ∨ In Close_tlsConn trace → In (TCPOpened addr) trace).
Proof.
  intros Hret. pose proof (bind_cases env addr certFile keyFile) as Hb.
  unfold ListenAndServe in Hret.
  assert (trace = [] ∨ trace = [UDPOpened addr; Close_udpConn]
          ∨ trace = [UDPOpened addr; TCPOpened addr; TLSWrapped; GoHTTPServe; GoQUICServe;
                     QuicServerClose; Close_tlsConn; Close_tcpConn; Close_udpConn]
          ∨ trace = [UDPOpened addr; TCPOpened addr; TLSWrapped; GoHTTPServe; GoQUICServe;
                     Close_tlsConn; Close_tcpConn; Close_udpConn]) as Hshape.
  { destruct (first_error env addr certFile keyFile) as [e|].
    - destruct Hb as (acts & Hb & Hshape). rewrite Hb in Hret.
      inversion Hret; subst. destruct Hshape; auto.
    - rewrite Hb in Hret.
      destruct (run (serving _) ls) as [s|] eqn:Hrun; [|done].
      destruct (result s) as [r'|] eqn:Hr; [|done].
      inversion Hret; subst; clear Hret.
      destruct (run_select ls _ s r Hrun eq_refl Hr) as [(_ & _ & Ha) | (_ & _ & Ha)];
        rewrite Ha; auto. }
  clear Hret Hb.
  destruct Hshape as [-> | [-> | [-> | ->]]];
    (split; [cbn; discriminate|]);
    (split; [cbn; discriminate|]);
    (split; [cbn; intuition discriminate|]);
    (split; [cbn; intuition discriminate|]);
    (split; [cbn; auto|]);
    (split; cbn; intuition discriminate).
Qed.

Lemma ListenAndServe_leaves_no_socket_open_witness :
  udp (sockets_after [UDPOpened "a:1"; TCPOpened "a:1"; TLSWrapped; GoHTTPServe;
                      GoQUICServe; Close_tlsConn; Close_tcpConn; Close_udpConn]) ≠ Open
  ∧ tcp (sockets_after [UDPOpened "a:1"; TCPOpened "a:1"; TLSWrapped; GoHTTPServe;
                        GoQUICServe; Close_tlsConn; Close_tcpConn; Close_udpConn]) ≠ Open
  ∧ (udp (sockets_after [UDPOpened "a:1"; TCPOpened "a:1"; TLSWrapped; GoHTTPServe;
                         GoQUICServe; Close_tlsConn; Close_tcpConn; Close_udpConn]) = Closed
     ↔ In (UDPOpened "a:1") [UDPOpened "a:1"; TCPOpened "a:1"; TLSWrapped; GoHTTPServe;
                             GoQUICServe; Close_tlsConn; Close_tcpConn; Close_udpConn])
  ∧ (tcp (sockets_after [UDPOpened "a:1"; TCPOpened "a:1"; TLSWrapped; GoHTTPServe;
                         GoQUICServe; Close_tlsConn; Close_tcpConn; Close_udpConn]) = Closed
     ↔ In (TCPOpened "a:1") [UDPOpened "a:1"; TCPOpened "a:1"; TLSWrapped; GoHTTPServe;
                             GoQUICServe; Close_tlsConn; Close_tcpConn; Close_udpConn])
  ∧ (filter is_close [UDPOpened "a:1"; TCPOpened "a:1"; TLSWrapped; GoHTTPServe;
                      GoQUICServe; Close_tlsConn; Close_tcpConn; Close_udpConn] = []
     ∨ filter is_close [UDPOpened "a:1"; TCPOpened "a:1"; TLSWrapped; GoHTTPServe;
                        GoQUICServe; Close_tlsConn; Close_tcpConn; Close_udpConn]
       = [Close_udpConn]
     ∨ filter is_close [UDPOpened "a:1"; TCPOpened "a:1"; TLSWrapped; GoHTTPServe;
                        GoQUICServe; Close_tlsConn; Close_tcpConn; Close_udpConn]
       = [Close_tlsConn; Close_tcpConn; Close_udpConn])
  ∧ (In Close_udpConn [UDPOpened "a:1"; TCPOpened "a:1"; TLSWrapped; GoHTTPServe;
                       GoQUICServe; Close_tlsConn; Close_tcpConn; Close_udpConn]
     → In (UDPOpened "a:1") [UDPOpened "a:1"; TCPOpened "a:1"; TLSWrapped; GoHTTPServe;
                             GoQUICServe; Close_tlsConn; Close_tcpConn; Close_udpConn])
  ∧ (In Close_tcpConn [UDPOpened "a:1"; TCPOpened "a:1"; TLSWrapped; GoHTTPServe;
                       GoQUICServe; Close_tlsConn; Close_tcpConn; Close_udpConn]
     ∨ In Close_tlsConn [UDPOpened "a:1"; TCPOpened "a:1"; TLSWrapped; GoHTTPServe;
                         GoQUICServe; Close_tlsConn; Close_tcpConn; Close_udpConn]
     → In (TCPOpened "a:1") [UDPOpened "a:1"; TCPOpened "a:1"; TLSWrapped; GoHTTPServe;
                             GoQUICServe; Close_tlsConn; Close_tcpConn; Close_udpConn]).
Proof.
  exact (ListenAndServe_leaves_no_socket_open allOk "a:1" "c" "k"
           [QUICReturns (Some "x"); RecvQ] _ _ eq_refl).
Defined.

Lemma step_one_receive (s s' : State) (l : Label) :
  one_receive s → step s l = Some s' → one_receive s'.
Proof.
  unfold one_receive, step. intros Hinv Hstep.
  destruct l as [e|e| |].
  - destruct (http s) eqn:Hh; try done. inversion Hstep; subst; cbn [result http quic].
    destruct (result s); [|by intuition].
    destruct Hinv as [[? ?] | [? ?]]; [done | right; by intuition].
  - destruct (quic s) eqn:Hq; try done. inversion Hstep; subst; cbn [result http quic].
    destruct (result s); [|by intuition].
    destruct Hinv as [[? ?] | [? ?]]; [left; by intuition | done].
  - destruct (result s); [done|]. destruct (http s); try done.
    inversion Hstep; subst; cbn [result http quic]. left. by intuition.
  - destruct (result s); [done|]. destruct (quic s); try done.
    inversion Hstep; subst; cbn [result http quic]. right. by intuition.
Qed.

(** Of the two server goroutines exactly one ever completes its channel
    send, the one whose value the [select] received; the other, once its
    [Serve] returns, stays blocked on its send for good. Before the
    listener returns neither send has completed. *)
Theorem listener_receives_exactly_one (acts : list Action) (ls : list Label) (s : State) :
  run (serving acts) ls = Some s → one_receive s.
Proof.
  assert (one_receive (serving acts)) as Hinit by (by split).
  revert Hinit. generalize (serving acts) as s0.
  induction ls as [|l ls IH]; intros s0 Hinit Hrun; cbn [run] in Hrun.
  - by inversion Hrun; subst.
  - destruct (step s0 l) as [s1|] eqn:Hstep; [|done].
    apply (IH s1); [by apply (step_one_receive s0 s1 l) | done].
Qed.

Lemma listener_receives_exactly_one_witness :
  one_receive (mkState (Sending (Some "h")) Delivered (Some (Some "q"))
                       [Close_tlsConn; Close_tcpConn; Close_udpConn]).
Proof.
  exact (listener_receives_exactly_one []
           [QUICReturns (Some "q"); RecvQ; HTTPReturns (Some "h")] _ eq_refl).
Defined.

End Release_facts.

(** ** More on the launch loop *)

Module Scope_facts.
Import Congestion Server Scope Orchestrator_facts.

Lemma pending_total_le_length (l : list Goroutine) :
  pending_total l <= Z.of_nat (length l).
Proof.
  induction l as [|g l IH]; [done|]. rewrite pending_total_cons.
  pose proof (pending_range g). cbn [length]. lia.
Qed.

Lemma pending_total_pos (l : list Goroutine) :
  0 < pending_total l → ∃ i g, l !! i = Some g ∧ gpc g ≠ GDone.
Proof.
  induction l as [|g l IH]; [done|]. rewrite pending_total_cons. intros Hpos.
  destruct (gpc g) eqn:Hg; try (by exists 0%nat, g; rewrite Hg).
  assert (pending g = 0) as H0 by (unfold pending; by rewrite Hg).
  destruct IH as (i & g' & Hi & Hg'); [lia|]. by exists (S i), g'.
Qed.

(** The wait-group counter is the number of bind targets the loop has
    not reached yet plus the number of listener goroutines that have not
    called [wg.Done()]; it stays between zero and the number of bind
    targets, so [Done] never drives it negative. *)
Theorem wg_counts_unfinished_listeners (binds : list string) (ls : list Label) (o : Orch) :
  run (launch binds) ls = Some o →
  wg o = Z.of_nat (length (rest o)) + pending_total (gs o)
  ∧ 0 <= wg o <= Z.of_nat (length binds).
Proof.
  intros Hrun.
  pose proof (run_inv binds ls _ o (launch_inv binds) Hrun) as (Hb & Hw & _ & _).
  split; [done|].
  pose proof (pending_total_nonneg (gs o)). pose proof (pending_total_le_length (gs o)).
  rewrite <- Hb, length_app, length_fmap. lia.
Qed.

Lemma wg_counts_witness :
  1 = Z.of_nat (length (@nil string))
      + pending_total [mkGoroutine "a:1" GDone; mkGoroutine "b:2" (GCalling "b:2")]
  ∧ 0 <= 1 <= Z.of_nat (length ["a:1"; "b:2"]).
Proof.
  exact (wg_counts_unfinished_listeners ["a:1"; "b:2"]
           [MainStep; GoStep 0 None; GoStep 0 None; MainStep; GoStep 1 None; GoStep 1 None;
            GoStep 0 None; GoStep 0 None]
           (mkOrch [] "b:2" InLoop
              [mkGoroutine "a:1" GDone; mkGoroutine "b:2" (GCalling "b:2")] 1
              [Log (Infof ("Start server on a:1" ++ Handler.nl));
               Log (Infof ("Start server on b:2" ++ Handler.nl))])
           eq_refl).
Defined.

(** The program never blocks on itself: in every state it reaches before
    its exit, [main] or one of the listener goroutines can take a step
    (for a goroutine inside [ListenAndServe] the step is that call
    returning); [wg.Wait()] is never left waiting for a goroutine that
    does not exist or has already finished. *)
Theorem orchestrator_never_stuck (binds : list string) (ls : list Label) (o : Orch) :
  run (launch binds) ls = Some o → pc o ≠ Exited →
  ∃ l o', step o l = Some o'
          ∧ (pc o = Waiting → wg o ≠ 0 →
             ∃ i g, l = GoStep i None ∧ gs o !! i = Some g ∧ gpc g ≠ GDone).
Proof.
  intros Hrun Hpc.
  pose proof (run_inv binds ls _ o (launch_inv binds) Hrun) as (Hb & Hw & Hr & _).
  destruct (pc o) eqn:Epc; [| |done].
  - exists MainStep. unfold step. rewrite Epc.
    destruct (rest o); eexists; (split; [reflexivity | done]).
  - destruct (wg o =? 0) eqn:Ewg.
    + exists MainStep. unfold step. rewrite Epc, Ewg. eexists. split; [reflexivity|]. lia.
    + rewrite (Hr ltac:(done)) in Hw. cbn [length] in Hw.
      pose proof (pending_total_nonneg (gs o)).
      destruct (pending_total_pos (gs o)) as (i & g & Hi & Hg); [lia|].
      exists (GoStep i None). unfold step. rewrite Epc, Hi.
      destruct (gpc g) as [| | a | [e|] |] eqn:Eg; try done;
        eexists; (split; [reflexivity|]); intros _ _; exists i, g; by rewrite Eg.
Qed.

Lemma orchestrator_never_stuck_witness :
  ∃ l o',
    step (mkOrch [] "a:1" Waiting [mkGoroutine "a:1" (GCalling "a:1")] 1
            [Log (Infof ("Start server on a:1" ++ Handler.nl))]) l = Some o'
    ∧ (Waiting = Waiting → 1 ≠ 0 →
       ∃ i g, l = GoStep i None
              ∧ [mkGoroutine "a:1" (GCalling "a:1")] !! i = Some g ∧ gpc g ≠ GDone).
Proof.
  exact (orchestrator_never_stuck ["a:1"]
           [MainStep; GoStep 0 None; GoStep 0 None; MainStep]
           (mkOrch [] "a:1" Waiting [mkGoroutine "a:1" (GCalling "a:1")] 1
              [Log (Infof ("Start server on a:1" ++ Handler.nl))])
           eq_refl ltac:(discriminate)).
Defined.

Lemma launch_addr_inv (binds : list string) : addr_inv (launch binds).
Proof. split; [done|]. intros i g a Hi. cbn in Hi. done. Qed.

Lemma setG_addr_inv (o : Orch) (i0 : nat) (g0 g' : Goroutine) (w : Z) (out' : list Event) :
  addr_inv o → gs o !! i0 = Some g0 → bCap g' = bCap g0 →
  (∀ a, gpc g' = GCalling a → a = b o) →
  addr_inv (setG o i0 g' w out').
Proof.
  intros [Hlast Hcall] Hg0 Hcap Hnew. unfold addr_inv, setG. cbn [gs b].
  rewrite (fmap_bCap_insert _ _ g0 g' Hg0 Hcap).
  assert (gs o ≠ []) as Hne by (intros E; by rewrite E in Hg0).
  split; [by intros _; apply Hlast|].
  intros i g a Hi Hgp. destruct (decide (i = i0)) as [-> | Hne'].
  - rewrite list_lookup_insert_eq in Hi by (by apply lookup_lt_Some in Hg0).
    inversion Hi; subst g. rewrite (Hnew a Hgp).
    exists (pred (length (bCap <$> gs o))). split.
    + apply lookup_lt_Some in Hg0. rewrite length_fmap. lia.
    + rewrite <- last_lookup. by apply Hlast.
  - rewrite list_lookup_insert_ne in Hi by done. by apply (Hcall i g a).
Qed.

Lemma step_addr_inv (o o' : Orch) (l : Label) :
  addr_inv o → step o l = Some o' → addr_inv o'.
Proof.
  intros Hinv Hstep. pose proof Hinv as [Hlast Hcall].
  unfold step in Hstep. destruct l as [|i ret].
  - destruct (pc o); [| |done].
    + destruct (rest o) as [|x xs]; inversion Hstep; subst; clear Hstep; [done|].
      unfold addr_inv. cbn [gs b]. rewrite fmap_app. cbn [fmap list_fmap bCap]. split.
      * intros _. apply last_snoc.
      * intros i g a Hi Hgp. apply lookup_app_Some in Hi as [Hi | [_ Hi]].
        -- destruct (Hcall i g a Hi Hgp) as (j & Hij & Hj).
           exists j. split; [done|]. by apply lookup_app_l_Some.
        -- apply list_lookup_singleton_Some in Hi as [_ <-]. discriminate Hgp.
    + destruct (wg o =? 0); by inversion Hstep; subst.
  - assert (∃ g0 g' w out', gs o !! i = Some g0 ∧ o' = setG o i g' w out'
                            ∧ bCap g' = bCap g0
                            ∧ (∀ a, gpc g' = GCalling a → a = b o))
      as (g0 & g' & w & out' & Hg0 & -> & Hcap & Hnew).
    { destruct (pc o); [| |done];
        (destruct (gs o !! i) as [g0|]; [|done]);
        destruct (gpc g0) as [| | a0 | [e|] |]; inversion Hstep; subst;
        do 4 eexists; (split; [reflexivity|]); (split; [reflexivity|]);
        (split; [reflexivity|]); cbn [gpc]; intros a Ha; by inversion Ha. }
    by apply (setG_addr_inv o i g0).
Qed.

Lemma run_addr_inv (ls : list Label) : ∀ o o' : Orch,
  addr_inv o → run o ls = Some o' → addr_inv o'.
Proof.
  induction ls as [|l ls IH]; intros o o' Hinv Hrun; cbn [run] in Hrun.
  - by inversion Hrun; subst.
  - destruct (step o l) as [o1|] eqn:Hstep; [|done].
    apply (IH o1); [by apply (step_addr_inv o o1 l) | done].
Qed.

(** The address a listener goroutine passes to [ListenAndServe] is always
    one of the configured bind targets: its own or one further down the
    list. The goroutine of the last target, and so the only goroutine
    when there is a single target, is always given its own. *)
Theorem listener_address_scope (binds : list string) (ls : list Label) (o : Orch)
    (i : nat) (g : Goroutine) (a : string) :
  run (launch binds) ls = Some o → gs o !! i = Some g → gpc g = GCalling a →
  binds !! i = Some (bCap g)
  ∧ (∃ j : nat, (i ≤ j)%nat ∧ binds !! j = Some a)
  ∧ (binds !! S i = None → a = bCap g).
Proof.
  intros Hrun Hi Hgp.
  pose proof (run_inv binds ls _ o (launch_inv binds) Hrun) as (Hb & _).
  pose proof (run_addr_inv ls _ o (launch_addr_inv binds) Hrun) as [_ Hcall].
  destruct (Hcall i g a Hi Hgp) as (j & Hij & Hj).
  assert (binds !! i = Some (bCap g)) as Hown.
  { rewrite <- Hb. apply lookup_app_l_Some. by rewrite list_lookup_fmap, Hi. }
  assert (binds !! j = Some a) as Haddr.
  { rewrite <- Hb. by apply lookup_app_l_Some. }
  split; [done|]. split; [by exists j|].
  intros Hlast. apply lookup_ge_None in Hlast.
  pose proof (lookup_lt_Some _ _ _ Haddr) as Hlt.
  assert (j = i) as -> by lia. congruence.
Qed.

Lemma listener_address_scope_witness :
  ["a:1"; "b:2"] !! 0%nat = Some (bCap (mkGoroutine "a:1" (GCalling "b:2")))
  ∧ (∃ j : nat, (0 ≤ j)%nat ∧ ["a:1"; "b:2"] !! j = Some "b:2")
  ∧ (["a:1"; "b:2"] !! 1%nat = None → "b:2" = bCap (mkGoroutine "a:1" (GCalling "b:2"))).
Proof.
  exact (listener_address_scope ["a:1"; "b:2"]
           [MainStep; MainStep; GoStep 0 None; GoStep 0 None]
           (mkOrch [] "b:2" InLoop
              [mkGoroutine "a:1" (GCalling "b:2"); mkGoroutine "b:2" GStart] 2
              [Log (Infof ("Start server on a:1" ++ Handler.nl))])
           0%nat (mkGoroutine "a:1" (GCalling "b:2")) "b:2" eq_refl eq_refl eq_refl).
Defined.

End Scope_facts.

(** ** More on the generator and the synthetic-content endpoint *)

Module Seed_facts.
Import Mach PRData PRData_facts.

Lemma next_seed_range (s : Z) :
  1 <= s <= 2 ^ 31 - 2 → 1 <= next_seed s <= 2 ^ 31 - 2.
Proof.
  intros Hs. unfold next_seed, wrap64.
  rewrite (Z.mod_small (s * 48271)) by lia.
  pose proof (Z.mod_pos_bound (s * 48271) 2147483647 ltac:(lia)) as Hb.
  assert ((s * 48271) mod 2147483647 ≠ 0) as Hnz; [|lia].
  intros Hz. apply Z.mod_divide in Hz; [|lia].
  rewrite Z.mul_comm in Hz. apply Z.gauss in Hz; [|reflexivity].
  apply Z.divide_pos_le in Hz; lia.
Qed.

(** The seed of the generator never becomes zero: after any number of
    turns of the loop it lies between 1 and [2^31 - 2], the multiplier
    being coprime to the modulus; it is the Lehmer state of that index. *)
Theorem seed_never_zero (n : nat) :
  1 <= Nat.iter n next_seed 1 <= 2 ^ 31 - 2
  ∧ Nat.iter n next_seed 1 = lehmer n.
Proof.
  induction n as [|n [IHr IHe]];
    [split; [change (Nat.iter 0 next_seed 1) with 1; lia | reflexivity]|].
  rewrite Nat.iter_succ. split; [by apply next_seed_range|].
  by rewrite IHe.
Qed.

End Seed_facts.

Module Root_more_facts.
Import Mach Strconv PRData HTTP Multipart Handler PRData_facts.

Lemma lehmer_bytes_range (l : nat) : Forall (λ b, 0 <= b < 256) (lehmer_bytes l).
Proof.
  unfold lehmer_bytes. apply Forall_fmap, Forall_forall. intros i _. cbn.
  apply Z.mod_pos_bound. lia.
Qed.

(** Whatever the request and whatever was written before, the handler of
    ["/"] prints the request once and returns without panicking; it
    never calls the generator with a length outside [1 .. 2^30]. It
    leaves what was written before in place and appends at most [2^30]
    bytes, each in [0, 256), and the response has a status afterwards. *)
Theorem rootHandler_never_panics (w : ResponseWriter) (r : Request) :
  ∃ (w' : ResponseWriter) (bs : list Z),
    rootHandler w r = ([PrintRequest r], Some w')
    ∧ written w' = (written w ++ bs)%list
    ∧ Z.of_nat (length bs) <= 2 ^ 30
    ∧ Forall (λ b, 0 <= b < 256) bs
    ∧ is_Some (wroteHeader w')
    ∧ (bs ≠ [] → wroteHeader w' = Some (default 200 (wroteHeader w))).
Proof.
  unfold rootHandler.
  destruct (ParseInt _ 10) as [num err].
  destruct (notNil err || (num <=? 0) || (maxSize <? num)) eqn:Hguard.
  - exists (WriteHeader w 400), []. split; [done|].
    unfold WriteHeader. destruct (wroteHeader w) eqn:Hw; cbn [written wroteHeader];
      rewrite ?app_nil_r, ?Hw; split_and!; try done; by eauto.
  - apply orb_false_iff in Hguard as [Hguard Hmax].
    apply orb_false_iff in Hguard as [_ Hpos].
    assert (1 <= num <= 2 ^ 30) as Hn.
    { change maxSize with (2 ^ 30) in Hmax. lia. }
    rewrite generatePRData_eq by lia. cbn [fmap option_fmap option_map].
    exists (Write w (lehmer_bytes (Z.to_nat num))), (lehmer_bytes (Z.to_nat num)).
    split; [done|]. unfold Write, WriteHeader.
    destruct (wroteHeader w) eqn:Hw; cbn [written wroteHeader default];
      rewrite ?Hw; cbn [default];
      (split_and!; [done | rewrite lehmer_bytes_length; lia | apply lehmer_bytes_range
                    | by eauto | done]).
Qed.

Lemma ReplaceAll_app (s1 s2 : string) (c : ascii) :
  ReplaceAll_byte_empty (s1 ++ s2) c
  = ReplaceAll_byte_empty s1 c ++ ReplaceAll_byte_empty s2 c.
Proof.
  induction s1 as [|x s1 IH]; [reflexivity|].
  change (String x s1 ++ s2) with (String x (s1 ++ s2)).
  cbn [ReplaceAll_byte_empty]. destruct (Ascii.eqb x c); [done|].
  by rewrite IH.
Qed.

(** Slashes in the request URI do not count: a slash put anywhere into
    the URI leaves the response as it is, so [/1/0/0] is answered like
    [/100]. *)
Theorem rootHandler_ignores_slashes
    (w : ResponseWriter) (m : string) (body : Body) (u1 u2 : string) :
  (rootHandler w (mkRequest m (u1 ++ "/" ++ u2) body)).2
  = (rootHandler w (mkRequest m (u1 ++ u2) body)).2.
Proof.
  unfold rootHandler. cbn [RequestURI].
  rewrite !ReplaceAll_app.
  change (ReplaceAll_byte_empty "/" "/") with "".
  change ("" ++ ReplaceAll_byte_empty u2 "/") with (ReplaceAll_byte_empty u2 "/").
  destruct (ParseInt _ 10) as [num err].
  by destruct (notNil err || (num <=? 0) || (maxSize <? num)).
Qed.

End Root_more_facts.

(** ** The qlog file of a connection *)

Module Qlog_facts.
Import HTTP MD5 Qlog.

Lemma hex_digit_inj (a b : Z) :
  0 <= a < 16 → 0 <= b < 16 → hex_digit a = hex_digit b → a = b.
Proof. unfold hex_digit. intros Ha Hb. destruct (a <? 10) eqn:Ea, (b <? 10) eqn:Eb; lia. Qed.

Lemma hex_cons (b : Z) (bs : list Z) :
  hex (b :: bs) = hex_digit (Z.shiftr b 4) :: hex_digit (Z.land b 15) :: hex bs.
Proof. reflexivity. Qed.

Lemma nibbles (b : Z) :
  0 <= b < 256 →
  0 <= Z.shiftr b 4 < 16 ∧ 0 <= Z.land b 15 < 16
  ∧ b = 16 * Z.shiftr b 4 + Z.land b 15.
Proof.
  intros Hb. rewrite Z.shiftr_div_pow2 by lia. change 15 with (Z.ones 4).
  rewrite Z.land_ones by lia. change (2 ^ 4) with 16.
  pose proof (Z.div_mod b 16 ltac:(lia)). pose proof (Z.mod_pos_bound b 16 ltac:(lia)).
  split; [|split]; [|lia|lia].
  split; [apply Z.div_pos; lia | apply Z.div_lt_upper_bound; lia].
Qed.

Lemma hex_inj (bs1 : list Z) : ∀ bs2 : list Z,
  Forall (λ b, 0 <= b < 256) bs1 → Forall (λ b, 0 <= b < 256) bs2 →
  hex bs1 = hex bs2 → bs1 = bs2.
Proof.
  induction bs1 as [|b1 bs1 IH]; intros [|b2 bs2] H1 H2 Heq; try done.
  rewrite !hex_cons in Heq. inversion Heq as [[Hhi Hlo Hrest]].
  inversion H1 as [|? ? Hb1 H1']; inversion H2 as [|? ? Hb2 H2']; subst.
  destruct (nibbles b1 Hb1) as (Hh1 & Hl1 & E1).
  destruct (nibbles b2 Hb2) as (Hh2 & Hl2 & E2).
  apply hex_digit_inj in Hhi; [|done..]. apply hex_digit_inj in Hlo; [|done..].
  f_equal; [lia | by apply IH].
Qed.

Lemma hex_chars (bs : list Z) :
  Forall (λ b, 0 <= b < 256) bs →
  Forall (λ c, 48 <= c <= 57 ∨ 97 <= c <= 102) (hex bs).
Proof.
  induction 1 as [|b bs Hb Hbs IH]; [constructor|]. rewrite hex_cons.
  destruct (nibbles b Hb) as (Hh & Hl & _).
  repeat (apply Forall_cons; split); [| |exact IH];
    unfold hex_digit; match goal with |- context [?x <? 10] => destruct (x <? 10) eqn:E end; lia.
Qed.

(** The qlog file name of a connection is [server_], two lowercase
    hexadecimal digits for each byte of the connection ID, and [.qlog]:
    connections with different IDs get different files, and the name has
    no slash, so the file is created in the working directory. When the
    file cannot be created the callback ends in [log.Fatal], otherwise it
    announces that very name. *)
Theorem qlog_file_per_connection (id1 id2 : list Z)
    (H1 : Forall (λ b, 0 <= b < 256) id1) (H2 : Forall (λ b, 0 <= b < 256) id2) :
  (filename id1 = filename id2 → id1 = id2)
  ∧ length (filename id1) = (12 + 2 * length id1)%nat
  ∧ ¬ In 47 (filename id1)
  ∧ (∀ Create : list Z → option string,
        match Create (filename id1) with
        | Some err => tracer Create id1 = ([Fatal err], None)
        | None => tracer Create id1 = ([Printf_creating (filename id1)], Some (filename id1))
        end).
Proof.
  split; [|split; [|split]].
  - unfold filename. intros Heq. apply app_inv_head, app_inv_tail in Heq.
    by apply hex_inj.
  - unfold filename. rewrite !length_app, Upload_facts.hex_length.
    change (length (bytes_of_string "server_")) with 7%nat.
    change (length (bytes_of_string ".qlog")) with 5%nat. lia.
  - unfold filename. rewrite !in_app_iff. intros [Hin | [Hin | Hin]].
    + vm_compute in Hin. intuition discriminate.
    + pose proof (hex_chars id1 H1) as Hc. rewrite Forall_forall in Hc.
      apply list_elem_of_In in Hin. specialize (Hc 47 Hin). lia.
    + vm_compute in Hin. intuition discriminate.
  - intros Create. unfold tracer. by destruct (Create (filename id1)).
Qed.

Lemma qlog_file_per_connection_witness :
  (filename [0; 171] = filename [10; 11] → [0; 171] = [10; 11])
  ∧ length (filename [0; 171]) = (12 + 2 * length [0; 171])%nat
  ∧ ¬ In 47 (filename [0; 171])
  ∧ (∀ Create : list Z → option string,
        match Create (filename [0; 171]) with
        | Some err => tracer Create [0; 171] = ([Fatal err], None)
        | None =>
            tracer Create [0; 171]
            = ([Printf_creating (filename [0; 171])], Some (filename [0; 171]))
        end).
Proof.
  apply (qlog_file_per_connection [0; 171] [10; 11]);
    repeat constructor; lia.
Defined.

Example qlog_filename_00ab :
  filename [0; 171] = bytes_of_string "server_00ab.qlog".
Proof. reflexivity. Qed.

End Qlog_facts.

(** ** From the command line to the congestion sender *)

Module Config_facts.
Import Congestion Server Server_facts.

(** The names of the control types: the three constants of each type
    have three different names, and every other value has the empty
    name. *)
Theorem control_type_names :
  (∀ t : CongestionControlType, congestionTypeToString t = "" ↔ ¬ (0 <= t <= 2))
  ∧ (∀ t1 t2 : CongestionControlType,
        0 <= t1 <= 2 → congestionTypeToString t1 = congestionTypeToString t2 → t1 = t2)
  ∧ (∀ t : HystartControlType, hystartTypeToString t = "" ↔ ¬ (0 <= t <= 2))
  ∧ (∀ t1 t2 : HystartControlType,
        0 <= t1 <= 2 → hystartTypeToString t1 = hystartTypeToString t2 → t1 = t2).
Proof.
  unfold congestionTypeToString, hystartTypeToString,
    CubicControlType, NewRenoControlType, BbrControlType,
    HystartTypeStandard, HystartTypePlusPlus, HystartTypeNone.
  split_and!.
  - intros t. destruct (t =? 1) eqn:E1, (t =? 0) eqn:E0, (t =? 2) eqn:E2;
      split; intros H; try discriminate; try reflexivity; try lia;
      exfalso; apply H; lia.
  - intros t1 t2 Ht.
    destruct (t1 =? 1) eqn:A1, (t1 =? 0) eqn:A0, (t1 =? 2) eqn:A2; try lia;
      destruct (t2 =? 1) eqn:B1, (t2 =? 0) eqn:B0, (t2 =? 2) eqn:B2;
      intros H; try discriminate; lia.
  - intros t. destruct (t =? 0) eqn:E0, (t =? 1) eqn:E1, (t =? 2) eqn:E2;
      split; intros H; try discriminate; try reflexivity; try lia;
      exfalso; apply H; lia.
  - intros t1 t2 Ht.
    destruct (t1 =? 0) eqn:A0, (t1 =? 1) eqn:A1, (t1 =? 2) eqn:A2; try lia;
      destruct (t2 =? 0) eqn:B0, (t2 =? 1) eqn:B1, (t2 =? 2) eqn:B2;
      intros H; try discriminate; lia.
Qed.

Lemma main_startup_launch (fl : Flags) (Stat : string → StatResult)
    (evs : list Event) (launched : list string) (conf : Config) :
  main_startup fl Stat = (evs, Launch launched conf) →
  ∃ c h, congestionMap !! congestionAlgo fl = Some c
         ∧ hystartMap !! hystart fl = Some h
         ∧ conf = mkConfig (mkOptions c h) (enableQlog fl)
         ∧ evs = prologue fl.
Proof.
  intros H. unfold main_startup in H. cbv zeta in H.
  destruct (String.eqb (certFile fl) ""); [by inversion H|].
  destruct (IsNotExist (Stat (certFile fl))); [by inversion H|].
  destruct (String.eqb (keyFile fl) ""); [by inversion H|].
  destruct (IsNotExist (Stat (keyFile fl))); [by inversion H|].
  destruct (congestionMap !! congestionAlgo fl) as [c|]; [|by inversion H].
  destruct (hystartMap !! hystart fl) as [h|]; [|by inversion H].
  inversion H; subst. by exists c, h.
Qed.

(** From the flags to the sender: when the start-up launches, the options
    it puts into the QUIC configuration make the factory build the
    cubic-family sender with the Reno flag set exactly when the
    congestion flag is [newreno] (the only other accepted value being
    [cubic]; the BBR type is never configured), with the hystart type
    the hystart flag names; the factory's message names that algorithm
    and a hystart variant with a name; a qlog tracer is installed
    exactly when the qlog flag is set. *)
Theorem configured_algorithm_reaches_factory
    {RTTStats ConnectionTracer Sender : Type}
    (NewCubicSender :
       Clock → RTTStats → Z → bool → HystartControlType → ConnectionTracer → Sender)
    (rtt : RTTStats) (size : Z) (tracer : ConnectionTracer)
    (fl : Flags) (Stat : string → StatResult)
    (evs : list Event) (launched : list string) (conf : Config) :
  main_startup fl Stat = (evs, Launch launched conf) →
  ∃ h : HystartControlType,
    hystartMap !! hystart fl = Some h
    ∧ NewCongestionHandler NewCubicSender rtt size (Congestion conf) tracer
      = ([Infof ("Congestion Control: "
                   ++ congestionTypeToString (ControlType (Congestion conf))
                   ++ " with hystart: " ++ hystartTypeToString h)],
         NewCubicSender DefaultClock rtt size
                        (bool_decide (congestionAlgo fl = "newreno")) h tracer)
    ∧ (congestionAlgo fl = "newreno" ∨ congestionAlgo fl = "cubic")
    ∧ ControlType (Congestion conf) ≠ BbrControlType
    ∧ hystartTypeToString h ≠ ""
    ∧ Tracer conf = enableQlog fl.
Proof.
  intros H. destruct (main_startup_launch _ _ _ _ _ H) as (c & h & Hc & Hh & -> & _).
  exists h. split; [done|]. cbn [Congestion ControlType Tracer].
  rewrite congestionMap_lookup in Hc. rewrite hystartMap_lookup in Hh.
  assert (hystartTypeToString h ≠ "") as Hname.
  { repeat case_decide; inversion Hh; subst; done. }
  destruct (decide (congestionAlgo fl = "newreno")) as [Ea | Ea].
  - inversion Hc; subst c. rewrite bool_decide_true by done.
    split_and!; try done. by left.
  - destruct (decide (congestionAlgo fl = "cubic")) as [Eb | Eb]; [|done].
    inversion Hc; subst c. rewrite bool_decide_false by done.
    split_and!; try done. by right.
Qed.

Lemma configured_algorithm_witness :
  ∃ h : HystartControlType,
    hystartMap !! hystart (mkFlags false [] "" true "cert.pem" "key.pem" "cubic" "plusplus")
    = Some h
    ∧ NewCongestionHandler (λ _ (_ : unit) size reno hy (_ : unit), (size, reno, hy))
                           tt 1200
                           (Congestion (mkConfig (mkOptions CubicControlType
                                                            HystartTypePlusPlus) true)) tt
      = ([Infof ("Congestion Control: "
                   ++ congestionTypeToString
                        (ControlType (Congestion (mkConfig (mkOptions CubicControlType
                                                              HystartTypePlusPlus) true)))
                   ++ " with hystart: " ++ hystartTypeToString h)],
         (1200,
          bool_decide (congestionAlgo (mkFlags false [] "" true "cert.pem" "key.pem"
                                               "cubic" "plusplus") = "newreno"), h))
    ∧ (congestionAlgo (mkFlags false [] "" true "cert.pem" "key.pem" "cubic" "plusplus")
       = "newreno"
       ∨ congestionAlgo (mkFlags false [] "" true "cert.pem" "key.pem" "cubic" "plusplus")
         = "cubic")
    ∧ ControlType (Congestion (mkConfig (mkOptions CubicControlType HystartTypePlusPlus)
                                        true)) ≠ BbrControlType
    ∧ hystartTypeToString h ≠ ""
    ∧ Tracer (mkConfig (mkOptions CubicControlType HystartTypePlusPlus) true)
      = enableQlog (mkFlags false [] "" true "cert.pem" "key.pem" "cubic" "plusplus").
Proof.
  apply (configured_algorithm_reaches_factory
           (λ _ (_ : unit) size reno hy (_ : unit), (size, reno, hy)) tt 1200 tt
           (mkFlags false [] "" true "cert.pem" "key.pem" "cubic" "plusplus")
           (λ _, StatOk)
           [SetLogLevelInfo; SetLogTimeFormat ""] ["localhost:6121"]).
  vm_compute. reflexivity.
Defined.

End Config_facts.

(** ** More on the upload endpoint and on the start messages *)

Module Upload_more_facts.
Import Mach HTTP Multipart Handler MD5 Upload_facts.

Lemma written_Write (w : ResponseWriter) (bs : list Z) :
  written (Write w bs) = (written w ++ bs)%list.
Proof. unfold Write, WriteHeader. by destruct (wroteHeader w). Qed.

(** The handler of ["/upload"] never panics and never sets a status of
    its own. To what was written before it appends either the upload form
    page or thirty-two lowercase hexadecimal digits. It logs nothing for
    a request that is not a POST and nothing when it answers with a
    digest; a POST answered with the form page logs exactly one message. *)
Theorem uploadHandler_answers (w : ResponseWriter) (r : Request) :
  ∃ (evs : list Event) (w' : ResponseWriter) (bs : list Z),
    uploadHandler w r = (evs, Some w')
    ∧ written w' = (written w ++ bs)%list
    ∧ wroteHeader w' = Some (default 200 (wroteHeader w))
    ∧ ((bs = bytes_of_string uploadForm
        ∧ (Method r ≠ "POST" → evs = [])
        ∧ (Method r = "POST" → ∃ e, evs = [Infof_upload e]))
       ∨ (Method r = "POST" ∧ evs = []
          ∧ length bs = 32%nat ∧ Forall lowercase_hex bs)).
Proof.
  assert (∀ bs, wroteHeader (Write w bs) = Some (default 200 (wroteHeader w))) as Hst.
  { intros bs. unfold Write, WriteHeader. by destruct (wroteHeader w) eqn:E; cbn; rewrite ?E. }
  unfold uploadHandler. destruct (String.eqb (Method r) "POST") eqn:Hm.
  - apply String.eqb_eq in Hm.
    assert (∀ e, ∃ evs w' bs,
              ([Infof_upload e], Some (WriteString w uploadForm)) = (evs, Some w')
              ∧ written w' = (written w ++ bs)%list
              ∧ wroteHeader w' = Some (default 200 (wroteHeader w))
              ∧ ((bs = bytes_of_string uploadForm
                  ∧ (Method r ≠ "POST" → evs = [])
                  ∧ (Method r = "POST" → ∃ e, evs = [Infof_upload e]))
                 ∨ (Method r = "POST" ∧ evs = []
                    ∧ length bs = 32%nat ∧ Forall lowercase_hex bs))) as Hfall.
    { intros e. do 3 eexists. split; [reflexivity|]. unfold WriteString.
      split; [apply written_Write|]. split; [apply Hst|]. left.
      split_and!; [done | done | by eauto]. }
    destruct (ParseMultipartForm r _) as [e | form]; [apply Hfall|].
    destruct (FormFile form "uploadfile") as [e | file]; [apply Hfall|].
    destruct (asSize file) as [size|]; [|apply Hfall].
    do 3 eexists. split; [reflexivity|].
    split; [apply written_Write|]. split; [apply Hst|]. right.
    split_and!; [done | done | |].
    + by rewrite hex_length, Sum_length.
    + apply hex_lowercase, Sum_range.
  - apply String.eqb_neq in Hm. do 3 eexists. split; [reflexivity|]. unfold WriteString.
    split; [apply written_Write|]. split; [apply Hst|]. left.
    split_and!; [done | done | done].
Qed.

End Upload_more_facts.

Module Start_message_facts.
Import Congestion Server Orchestrator_facts.

Lemma step_out_grows (o o' : Orch) (l : Label) (ev : Event) :
  step o l = Some o' → In ev (out o) → In ev (out o').
Proof.
  intros Hstep Hin. unfold step in Hstep. destruct l as [|i ret].
  - destruct (pc o); [| |done].
    + destruct (rest o); by inversion Hstep; subst.
    + destruct (wg o =? 0); by inversion Hstep; subst.
  - destruct (pc o); [| |done];
      (destruct (gs o !! i) as [g|]; [|done]);
      destruct (gpc g) as [| | a | [e|] |]; inversion Hstep; subst; unfold setG; cbn [out];
      rewrite ?in_app_iff; auto.
Qed.

Lemma step_started_logged (o o' : Orch) (l : Label) :
  (∀ i g, gs o !! i = Some g → gpc g ≠ GStart →
          In (Log (Infof ("Start server on " ++ bCap g ++ Handler.nl))) (out o)) →
  step o l = Some o' →
  ∀ i g, gs o' !! i = Some g → gpc g ≠ GStart →
         In (Log (Infof ("Start server on " ++ bCap g ++ Handler.nl))) (out o').
Proof.
  intros Hinv Hstep i g Hi Hg.
  pose proof (step_out_grows o o' l) as Hgrow.
  unfold step in Hstep. destruct l as [|i0 ret].
  - destruct (pc o); [| |done].
    + destruct (rest o) as [|x xs]; inversion Hstep; subst; cbn [gs out] in *.
      * by apply (Hinv i g).
      * apply lookup_app_Some in Hi as [Hi | [_ Hi]]; [by apply (Hinv i g)|].
        apply list_lookup_singleton_Some in Hi as [_ <-]. by cbn in Hg.
    + destruct (wg o =? 0); inversion Hstep; subst; cbn [gs out] in *.
      by apply (Hinv i g).
  - assert (∃ g0 g' w out', gs o !! i0 = Some g0 ∧ o' = setG o i0 g' w out'
                            ∧ bCap g' = bCap g0
                            ∧ (gpc g0 = GStart →
                               out' = (out o ++ [Log (Infof ("Start server on "
                                                               ++ bCap g0 ++ Handler.nl))])%list)
                            ∧ (∀ ev, In ev (out o) → In ev out'))
      as (g0 & g' & w & out' & Hg0 & -> & Hcap & Hlog & Hmono).
    { destruct (pc o); [| |done];
        (destruct (gs o !! i0) as [g0|]; [|done]);
        destruct (gpc g0) as [| | a0 | [e|] |] eqn:Eg; inversion Hstep; subst;
        do 4 eexists; (split; [reflexivity|]); (split; [reflexivity|]);
        (split; [reflexivity|]);
        (split; [intros E; first [reflexivity | congruence]|]);
        intros ev; rewrite ?in_app_iff; auto. }
    unfold setG in *. cbn [gs out] in *.
    destruct (decide (i = i0)) as [-> | Hne].
    + rewrite list_lookup_insert_eq in Hi by (by apply lookup_lt_Some in Hg0).
      inversion Hi; subst g. rewrite Hcap.
      destruct (gpc g0) eqn:Es;
        [rewrite (Hlog eq_refl), in_app_iff; right; by left | ..];
        apply Hmono; apply (Hinv i0 g0 Hg0); by rewrite Es.
    + rewrite list_lookup_insert_ne in Hi by done. apply Hmono. by apply (Hinv i g).
Qed.

(** A listener goroutine that is past its first statement has logged
    [Start server on] with its own bind target, and the message stays in
    the output: the start message always names the goroutine's own
    target, also when [ListenAndServe] is then entered with another
    address. *)
Theorem start_message_names_own_target (binds : list string) (ls : list Label) (o : Orch)
    (i : nat) (g : Goroutine) :
  run (launch binds) ls = Some o → gs o !! i = Some g → gpc g ≠ GStart →
  binds !! i = Some (bCap g)
  ∧ In (Log (Infof ("Start server on " ++ bCap g ++ Handler.nl))) (out o).
Proof.
  intros Hrun Hi Hg. split.
  - pose proof (run_inv binds ls _ o (launch_inv binds) Hrun) as (Hb & _).
    rewrite <- Hb. apply lookup_app_l_Some. by rewrite list_lookup_fmap, Hi.
  - revert i g Hi Hg.
    assert (∀ i g, gs (launch binds) !! i = Some g → gpc g ≠ GStart →
              In (Log (Infof ("Start server on " ++ bCap g ++ Handler.nl)))
                 (out (launch binds))) as Hinit by (by intros i g Hi; cbn in Hi).
    revert Hinit Hrun. generalize (launch binds) as o0. clear binds.
    induction ls as [|l ls IH]; intros o0 Hinit Hrun; cbn [run] in Hrun.
    + by inversion Hrun; subst.
    + destruct (step o0 l) as [o1|] eqn:Hstep; [|done].
      apply (IH o1); [|done]. by apply (step_started_logged o0 o1 l).
Qed.

Lemma start_message_witness :
  ["a:1"; "b:2"] !! 0%nat = Some (bCap (mkGoroutine "a:1" (GCalling "b:2")))
  ∧ In (Log (Infof ("Start server on " ++ bCap (mkGoroutine "a:1" (GCalling "b:2"))
                      ++ Handler.nl)))
       [Log (Infof ("Start server on a:1" ++ Handler.nl))].
Proof.
  exact (start_message_names_own_target ["a:1"; "b:2"]
           [MainStep; MainStep; GoStep 0 None; GoStep 0 None]
           (mkOrch [] "b:2" InLoop
              [mkGoroutine "a:1" (GCalling "b:2"); mkGoroutine "b:2" GStart] 2
              [Log (Infof ("Start server on a:1" ++ Handler.nl))])
           0%nat (mkGoroutine "a:1" (GCalling "b:2")) eq_refl eq_refl ltac:(discriminate)).
Defined.

End Start_message_facts.
